(** * Mouse.js: a shallow embedding of [mouse.js] and its properties

    The library is one constructor, [Mouse(target)], whose closures
    share the instance [self].  The embedding keeps that shape: an
    [instance] record holds the fields of [self] together with the
    arrays they reference and the effects the closures have on the
    host (console diagnostics, listener invocations, platform calls);
    every closure of the source is a function on that record that
    either returns or throws.

    - Coordinates are Numbers: IEEE binary64, the kernel's floats.
      Button codes are integers.
    - Listener arrays are shared, mutable objects: [heap] holds them by
      reference and [self.events] maps names to references, so that a
      listener that changes the table while [emit] walks an array acts
      on the array being walked, or on another one, as in the source.
    - [self.events] and [buttonCodes] are object literals: [in] and
      property reads see what [Object.prototype] supplies.
    - A string is a string of bytes.  [toLowerCase] is the built-in on
      strings of ASCII characters; statements about other strings are
      not made.  The values include no object that brings methods of
      its own, such as a String object.
    - A listener is a function value, known by its identity; what it
      does to the instance is a list of calls of the public operations,
      and it may throw. *)

From Stdlib Require Import ZArith String Ascii List Floats DecimalString.
From stdpp Require Import gmap strings list fin_maps.

Local Open Scope string_scope.
Local Open Scope list_scope.

(** ** JavaScript values *)

(** Identity of a function value passed as a listener. *)
Definition callback := nat.

(** The values the public operations are called with and return.
    A Number is an integer here: the only Numbers the library compares
    or stores are button codes.  [VArr] is a reference to an array of
    the heap, [VElem] a DOM element, [VHost] a built-in object of the
    host named by its path. *)
Inductive value :=
  | VUndefined
  | VNull
  | VBool (b : bool)
  | VNum (n : Z)
  | VStr (s : string)
  | VFun (f : callback)
  | VElem (id : nat)
  | VArr (r : nat)
  | VHost (path : string).

#[global] Instance value_eq_dec : EqDecision value.
Proof. solve_decision. Defined.

(** [a === b]: on these values strict equality is sameness (primitives
    by content, objects by identity). *)
Definition strict_eq (a b : value) : bool := bool_decide (a = b).

(** What is thrown: the engine's [TypeError] (the library has no
    [throw] of its own), or whatever a listener's own code throws. *)
Inductive error :=
  | TypeError
  | Raised.

Inductive completion (A : Type) :=
  | Return (a : A)
  | Throw (e : error).
Arguments Return {A} a.
Arguments Throw {A} e.

(** [String.prototype.toLowerCase] on strings of ASCII characters, where
    it changes the letters A-Z and nothing else.  A string here is a
    string of bytes, and [ascii_only] singles out those of ASCII
    characters; on any other string the built-in also lowers
    characters beyond ASCII (the Kelvin sign U+212A becomes [k]) and
    this function does not, so every statement below that lowers a
    string of its choice confines it to [ascii_only], or to the
    strings this function sends to a button name. *)
Definition lower_ascii (c : ascii) : ascii :=
  let n := nat_of_ascii c in
  if (65 <=? n)%nat && (n <=? 90)%nat then ascii_of_nat (n + 32) else c.

Fixpoint toLowerCase (s : string) : string :=
  match s with
  | EmptyString => EmptyString
  | String c s' => String (lower_ascii c) (toLowerCase s')
  end.

Fixpoint ascii_only (s : string) : bool :=
  match s with
  | EmptyString => true
  | String c s' => (nat_of_ascii c <? 128)%nat && ascii_only s'
  end.

(** The string-keyed properties every ordinary object inherits from
    [Object.prototype]; [k in o] and [o[k]] see them. *)
Definition object_prototype_keys : list string :=
  [ "constructor"; "__defineGetter__"; "__defineSetter__"; "hasOwnProperty";
    "__lookupGetter__"; "__lookupSetter__"; "isPrototypeOf";
    "propertyIsEnumerable"; "toString"; "valueOf"; "__proto__";
    "toLocaleString" ].

(** Likewise for [Array.prototype]. *)
Definition array_prototype_keys : list string :=
  [ "constructor"; "toString"; "toLocaleString";
    "at"; "concat"; "copyWithin"; "entries"; "every"; "fill"; "filter";
    "find"; "findIndex"; "findLast"; "findLastIndex"; "flat"; "flatMap";
    "forEach"; "includes"; "indexOf"; "join"; "keys"; "lastIndexOf"; "map";
    "pop"; "push"; "reduce"; "reduceRight"; "reverse"; "shift"; "slice";
    "some"; "sort"; "splice"; "toReversed"; "toSorted"; "toSpliced";
    "unshift"; "values"; "with" ].

Definition mem_string (k : string) (l : list string) : bool :=
  existsb (String.eqb k) l.

(** What an object whose prototype is [Object.prototype] reads under
    an inherited key: the accessor [__proto__] yields the prototype,
    the other keys the built-in functions. *)
Definition object_prototype_get (k : string) : value :=
  if String.eqb k "__proto__" then VHost "Object.prototype"
  else VHost ("Object.prototype." ++ k).

(** ** The button table *)

Definition buttonCodes : list (string * Z) :=
  [ ("left", 0%Z); ("middle", 1%Z); ("right", 2%Z); ("back", 3%Z);
    ("next", 4%Z) ].

(** [buttonCodes[k]], the object being a literal whose prototype is
    [Object.prototype]. *)
Definition buttonCodes_get (k : string) : value :=
  match find (fun kv => String.eqb (fst kv) k) buttonCodes with
  | Some kv => VNum (snd kv)
  | None =>
      if mem_string k object_prototype_keys then object_prototype_get k
      else VUndefined
  end.

(** [Object.keys(buttonCodes).find(k => buttonCodes[k] === code)];
    [None] is [undefined]. *)
Definition nameOf (code : value) : option string :=
  fst <$> find (fun kv => strict_eq (VNum (snd kv)) code) buttonCodes.

(** [buttonCodes[name.toLowerCase()]]: of the values above only a
    string has the method; on [undefined] and [null] the property read
    itself throws, on every other value the call of the missing method
    does. *)
Definition codeOf (name : value) : completion value :=
  match name with
  | VStr s => Return (buttonCodes_get (toLowerCase s))
  | _ => Throw TypeError
  end.

(** [`${x}`] for the result of [nameOf]. *)
Definition template (x : option string) : string :=
  match x with
  | Some s => s
  | None => "undefined"
  end.

(** ** The host *)

(** The payload of a mouse notification: the fields the library reads. *)
Record MouseEvent := {
  button : Z;
  pageX : float;
  pageY : float;
  movementX : float;
  movementY : float;
  clientX : float;
  clientY : float;
}.

(** What a listener is called with: the raw notification, or a value
    ([undefined] when [emit] is called with one argument). *)
Inductive payload :=
  | PEvent (e : MouseEvent)
  | PValue (v : value).

(** [window]: the two dimensions [Screen] reads on every access. *)
Record window := {
  innerWidth : float;
  innerHeight : float;
}.

Module Screen.

Definition width (w : window) : float := innerWidth w.

Definition height (w : window) : float := innerHeight w.

Definition aspect (w : window) : float := (innerWidth w / innerHeight w)%float.

End Screen.

(** [document]: the three accessors of the captured element;
    [VUndefined] where the engine lacks the accessor, [VNull] where
    nothing is captured. *)
Record document := {
  pointerLockElement : value;
  mozPointerLockElement : value;
  webkitPointerLockElement : value;
}.

(** A capture target.  [rectLeft] and [rectTop] place its bounding box
    in the viewport; the six flags say which pointer-lock entry points
    the platform gave it; [requestLock] and [requestUnlock] are the two
    properties the constructor writes ([None] is [undefined]). *)
Record element := {
  elem_id : nat;
  clientWidth : float;
  clientHeight : float;
  rectLeft : float;
  rectTop : float;
  requestPointerLock : bool;
  mozRequestPointerLock : bool;
  webkitRequestPointerLock : bool;
  exitPointerLock : bool;
  mozExitPointerLock : bool;
  webkitExitPointerLock : bool;
  requestLock : option string;
  requestUnlock : option string;
}.

(** [a || b || c] over entry points that exist or not. *)
Definition first_available (l : list (bool * string)) : option string :=
  snd <$> find fst l.

Definition alias_entry_points (t : element) : element :=
  {| elem_id := elem_id t;
     clientWidth := clientWidth t;
     clientHeight := clientHeight t;
     rectLeft := rectLeft t;
     rectTop := rectTop t;
     requestPointerLock := requestPointerLock t;
     mozRequestPointerLock := mozRequestPointerLock t;
     webkitRequestPointerLock := webkitRequestPointerLock t;
     exitPointerLock := exitPointerLock t;
     mozExitPointerLock := mozExitPointerLock t;
     webkitExitPointerLock := webkitExitPointerLock t;
     requestLock :=
       first_available
         [ (requestPointerLock t, "requestPointerLock");
           (mozRequestPointerLock t, "mozRequestPointerLock");
           (webkitRequestPointerLock t, "webkitRequestPointerLock") ];
     requestUnlock :=
       first_available
         [ (exitPointerLock t, "exitPointerLock");
           (mozExitPointerLock t, "mozExitPointerLock");
           (webkitExitPointerLock t, "webkitExitPointerLock") ] |}.

(** ** The instance *)

(** The twelve coordinate fields of [self]. *)
Record coords := {
  docX : float; docY : float; docPX : float; docPY : float;
  docDX : float; docDY : float; docDPX : float; docDPY : float;
  targetX : float; targetY : float; targetPX : float; targetPY : float;
}.

(** [self] and what its closures reach.
    - [events]: the own properties of [self.events], each an array
      reference; [events_proto]: its prototype, [None] for
      [Object.prototype], [Some r] once an assignment to
      [self.events["__proto__"]] made the array [r] the prototype;
    - [heap]: the arrays, by reference; two names bound to one
      reference share the array;
    - [buttons]: the [Set] of held button codes;
    - [console]: the diagnostics written so far;
    - [calls]: the listener invocations so far, oldest first;
    - [platform]: the entry points called on the target so far. *)
Record instance := {
  target : option element;
  events : gmap string nat;
  events_proto : option nat;
  heap : list (list callback);
  pos : coords;
  buttons : gset Z;
  console : list string;
  calls : list (callback * payload);
  platform : list string;
}.

Definition set_events (f : gmap string nat -> gmap string nat) (m : instance) : instance :=
  {| target := target m; events := f (events m); events_proto := events_proto m;
     heap := heap m; pos := pos m; buttons := buttons m; console := console m;
     calls := calls m; platform := platform m |}.

Definition set_events_proto (p : option nat) (m : instance) : instance :=
  {| target := target m; events := events m; events_proto := p;
     heap := heap m; pos := pos m; buttons := buttons m; console := console m;
     calls := calls m; platform := platform m |}.

Definition set_heap (f : list (list callback) -> list (list callback)) (m : instance) : instance :=
  {| target := target m; events := events m; events_proto := events_proto m;
     heap := f (heap m); pos := pos m; buttons := buttons m; console := console m;
     calls := calls m; platform := platform m |}.

Definition set_pos (f : coords -> coords) (m : instance) : instance :=
  {| target := target m; events := events m; events_proto := events_proto m;
     heap := heap m; pos := f (pos m); buttons := buttons m; console := console m;
     calls := calls m; platform := platform m |}.

Definition set_buttons (f : gset Z -> gset Z) (m : instance) : instance :=
  {| target := target m; events := events m; events_proto := events_proto m;
     heap := heap m; pos := pos m; buttons := f (buttons m); console := console m;
     calls := calls m; platform := platform m |}.

(** [console.warn(msg)] and [console.log(msg)] alike. *)
Definition warn (msg : string) (m : instance) : instance :=
  {| target := target m; events := events m; events_proto := events_proto m;
     heap := heap m; pos := pos m; buttons := buttons m;
     console := console m ++ [msg];
     calls := calls m; platform := platform m |}.

Definition record_call (f : callback) (p : payload) (m : instance) : instance :=
  {| target := target m; events := events m; events_proto := events_proto m;
     heap := heap m; pos := pos m; buttons := buttons m; console := console m;
     calls := calls m ++ [(f, p)]; platform := platform m |}.

Definition record_platform (entry : string) (m : instance) : instance :=
  {| target := target m; events := events m; events_proto := events_proto m;
     heap := heap m; pos := pos m; buttons := buttons m; console := console m;
     calls := calls m; platform := platform m ++ [entry] |}.

(** The array behind a reference ([[]] for a dangling one, which no
    operation produces). *)
Definition array (m : instance) (r : nat) : list callback :=
  default [] (heap m !! r).

(** A fresh array literal [[]]: its reference, and the heap with it. *)
Definition fresh (m : instance) : nat := length (heap m).

Definition alloc (m : instance) : instance := set_heap (fun h => h ++ [[]]) m.

(** ** The object [self.events] *)

(** The canonical decimal spelling of an array index. *)
Definition index_key (i : nat) : string := NilEmpty.string_of_uint (Nat.to_uint i).

(** The index a key spells, among the indices below [n]. *)
Definition index_of_key (k : string) (n : nat) : option nat :=
  find (fun i => String.eqb k (index_key i)) (seq 0 n).

(** [k in self.events]: an own property, or one found along the
    prototype chain. *)
Definition events_in (m : instance) (k : string) : bool :=
  match events m !! k with
  | Some _ => true
  | None =>
      mem_string k object_prototype_keys
      || match events_proto m with
         | None => false
         | Some r =>
             bool_decide (is_Some (index_of_key k (length (array m r))))
             || String.eqb k "length"
             || mem_string k array_prototype_keys
         end
  end.

(** [self.events[k]]. *)
Definition events_get (m : instance) (k : string) : value :=
  match events m !! k with
  | Some r => VArr r
  | None =>
      match events_proto m with
      | None =>
          if mem_string k object_prototype_keys then object_prototype_get k
          else VUndefined
      | Some r =>
          match index_of_key k (length (array m r)) with
          | Some i =>
              match array m r !! i with
              | Some f => VFun f
              | None => VUndefined
              end
          | None =>
              if String.eqb k "length" then VNum (Z.of_nat (length (array m r)))
              else if mem_string k array_prototype_keys
                   then VHost ("Array.prototype." ++ k)
              else if String.eqb k "__proto__" then VArr r
              else if mem_string k object_prototype_keys
                   then object_prototype_get k
              else VUndefined
          end
      end
  end.

(** [self.events[k] = r]: an own property is overwritten; the
    inherited accessor [__proto__] replaces the prototype; every other
    key becomes an own property. *)
Definition events_set (k : string) (r : nat) (m : instance) : instance :=
  match events m !! k with
  | Some _ => set_events (insert k r) m
  | None =>
      if String.eqb k "__proto__" then set_events_proto (Some r) m
      else set_events (insert k r) m
  end.

(** [a.indexOf(x)] on an array of functions; [None] is [-1]. *)
Fixpoint indexOf (x : value) (a : list callback) : option nat :=
  match a with
  | [] => None
  | f :: a' =>
      if strict_eq (VFun f) x then Some 0
      else S <$> indexOf x a'
  end.

(** ** Subscription *)

Definition on (event : string) (cb : callback) (m : instance)
  : completion bool * instance :=
  if events_in m event then
    match events_get m event with
    | VArr r => (Return true, set_heap (alter (fun a => a ++ [cb]) r) m)
    | _ => (Throw TypeError, m)
    end
  else (Return false, warn "MouseError: Event not found!" m).

Definition off (event : string) (cb : value) (m : instance)
  : completion bool * instance :=
  if strict_eq cb (VStr "all") then
    if events_in m event
    then (Return true, events_set event (fresh m) (alloc m))
    else (Return false, warn "MouseError: Event not found!" m)
  else if events_in m event then
    match events_get m event with
    | VArr r =>
        match indexOf cb (array m r) with
        | None => (Return false, warn "MouseError: Callback not found!" m)
        | Some index => (Return true, set_heap (alter (delete index) r) m)
        end
    | _ => (Throw TypeError, m)
    end
  else (Return false, warn "MouseError: Event not found!" m).

(** ** Requests for capture *)

Definition lock (m : instance) : completion unit * instance :=
  match target m with
  | Some t =>
      match requestLock t with
      | Some entry => (Return tt, record_platform entry m)
      | None => (Throw TypeError, m)
      end
  | None => (Return tt, warn "MouseError: Target is undefined!" m)
  end.

Definition unlock (m : instance) : completion unit * instance :=
  match target m with
  | Some t =>
      match requestUnlock t with
      | Some entry => (Return tt, record_platform entry m)
      | None => (Throw TypeError, m)
      end
  | None => (Return tt, warn "MouseError: Target is undefined!" m)
  end.

(** ** Queries *)

(** [self.buttons.has(x)]: the set holds button codes only. *)
Definition buttons_has (m : instance) (x : value) : bool :=
  match x with
  | VNum n => bool_decide (n ∈ buttons m)
  | _ => false
  end.

(** [if (typeof button === "string") button = buttonCodes[button.toLowerCase()]]. *)
Definition resolve_button (button : value) : value :=
  match button with
  | VStr s => buttonCodes_get (toLowerCase s)
  | _ => button
  end.

Definition pressed (button : value) (m : instance) : bool * instance :=
  let button := resolve_button button in
  let m1 :=
    if strict_eq button VUndefined || strict_eq button VNull
    then warn "MouseError: Invalid button!" m
    else m in
  (buttons_has m1 button, m1).

(** ** Listeners *)

(** What a listener does when it runs: calls of the operations the
    instance exposes, and possibly a [throw].  (The dispatch function
    is private and the platform's notifications are asynchronous, so a
    listener cannot start a dispatch from inside one.) *)
Inductive action :=
  | CallOn (event : string) (cb : callback)
  | CallOff (event : string) (cb : value)
  | CallDown (button : value)
  | CallNameOf (code : value)
  | CallCodeOf (name : value)
  | CallLockPointer
  | CallUnlockPointer
  | Raise.

(** The body of every function value, given its argument. *)
Definition program := callback -> payload -> list action.

(** A call whose result the listener drops. *)
Definition discard {A : Type} (c : completion A * instance) : completion unit * instance :=
  match c with
  | (Return _, m) => (Return tt, m)
  | (Throw e, m) => (Throw e, m)
  end.

Definition run_action (a : action) (m : instance) : completion unit * instance :=
  match a with
  | CallOn event cb => discard (on event cb m)
  | CallOff event cb => discard (off event cb m)
  | CallDown button => (Return tt, snd (pressed button m))
  | CallNameOf _ => (Return tt, m)
  | CallCodeOf name => discard (codeOf name, m)
  | CallLockPointer => lock m
  | CallUnlockPointer => unlock m
  | Raise => (Throw Raised, m)
  end.

Fixpoint run_actions (l : list action) (m : instance) : completion unit * instance :=
  match l with
  | [] => (Return tt, m)
  | a :: l' =>
      match run_action a m with
      | (Return _, m') => run_actions l' m'
      | (Throw e, m') => (Throw e, m')
      end
  end.

(** [f(params)]. *)
Definition invoke (prog : program) (f : callback) (params : payload) (m : instance)
  : completion unit * instance :=
  run_actions (prog f params) (record_call f params m).

(** [a.map(f => f(params))] on the array [r], from index [k] with [n]
    indices to go: the length is read once, before the first call, and
    each index is looked up in the array as it is when its turn comes;
    an index the array no longer has is passed over. *)
Fixpoint emit_from (prog : program) (r : nat) (params : payload) (k n : nat)
    (m : instance) : completion unit * instance :=
  match n with
  | O => (Return tt, m)
  | S n' =>
      match array m r !! k with
      | Some f =>
          match invoke prog f params m with
          | (Return _, m') => emit_from prog r params (S k) n' m'
          | (Throw e, m') => (Throw e, m')
          end
      | None => emit_from prog r params (S k) n' m
      end
  end.

Definition emit (prog : program) (event : string) (params : payload) (m : instance)
  : completion unit * instance :=
  match events_get m event with
  | VArr r => emit_from prog r params 0 (length (array m r)) m
  | _ => (Throw TypeError, m)
  end.

(** Sequencing of two effects, the second skipped when the first throws. *)
Definition and_then {A B : Type} (c : completion A * instance)
    (k : A -> instance -> completion B * instance) : completion B * instance :=
  match c with
  | (Return a, m) => k a m
  | (Throw e, m) => (Throw e, m)
  end.

(** ** Capture notifications *)

(** [self.target] as a value. *)
Definition target_value (m : instance) : value :=
  match target m with
  | Some t => VElem (elem_id t)
  | None => VUndefined
  end.

Definition lock_state (d : document) (m : instance) : bool :=
  strict_eq (pointerLockElement d) (target_value m)
  || strict_eq (mozPointerLockElement d) (target_value m)
  || strict_eq (webkitPointerLockElement d) (target_value m).

Definition lockChange (prog : program) (d : document) (m : instance)
  : completion unit * instance :=
  let state := lock_state d m in
  and_then (emit prog "lockchange" (PValue (VBool state)) m) (fun _ =>
  emit prog (if state then "lock" else "unlock") (PValue VUndefined)).

Definition lockError (prog : program) (m : instance) : completion unit * instance :=
  emit prog "lockerror" (PValue VUndefined) m.

(** ** Movement *)

Definition docMove (prog : program) (w : window) (e : MouseEvent) (m : instance)
  : completion unit * instance :=
  let m1 :=
    set_pos (fun c =>
      {| docPX := pageX e;
         docPY := pageY e;
         docX := (pageX e / Screen.width w - 0.5) * 2;
         docY := (pageY e / Screen.height w - 0.5) * 2;
         docDPX := movementX e;
         docDPY := movementY e;
         docDX := (movementX e / Screen.width w - 0.5) * 2;
         docDY := (movementY e / Screen.height w - 0.5) * 2;
         targetX := targetX c; targetY := targetY c;
         targetPX := targetPX c; targetPY := targetPY c |}%float) m in
  emit prog "move" (PEvent e) m1.

(** With no target the third assignment throws at the read of
    [self.target.clientWidth], the first two done; the constructor
    binds this handler only when there is a target. *)
Definition targetMove (prog : program) (w : window) (e : MouseEvent) (m : instance)
  : completion unit * instance :=
  match target m with
  | None =>
      (Throw TypeError,
       set_pos (fun c =>
         {| targetPX := clientX e;
            targetPY := clientY e;
            targetX := targetX c; targetY := targetY c;
            docX := docX c; docY := docY c; docPX := docPX c; docPY := docPY c;
            docDX := docDX c; docDY := docDY c;
            docDPX := docDPX c; docDPY := docDPY c |}) m)
  | Some t =>
      let m1 :=
        set_pos (fun c =>
          {| targetPX := clientX e;
             targetPY := clientY e;
             targetX := (clientX e / clientWidth t - 0.5) * 2;
             targetY := (clientY e / clientHeight t - 0.5) * 2;
             docX := docX c; docY := docY c; docPX := docPX c; docPY := docPY c;
             docDX := docDX c; docDY := docDY c;
             docDPX := docDPX c; docDPY := docDPY c |}%float) m in
      docMove prog w e m1
  end.

(** ** Buttons *)

Definition docDown (prog : program) (e : MouseEvent) (m : instance)
  : completion unit * instance :=
  let m1 := set_buttons (fun s => {[ button e ]} ∪ s) m in
  and_then (emit prog (template (nameOf (VNum (button e))) ++ "down") (PEvent e) m1)
    (fun _ => emit prog "anydown" (PEvent e)).

Definition docUp (prog : program) (e : MouseEvent) (m : instance)
  : completion unit * instance :=
  let m1 := set_buttons (fun s => s ∖ {[ button e ]}) m in
  and_then (emit prog (template (nameOf (VNum (button e))) ++ "up") (PEvent e) m1)
    (fun _ => emit prog "anyup" (PEvent e)).

(** ** Construction *)

Definition event_names : list string :=
  [ "move"; "anydown"; "anyup"; "unlock"; "lock"; "lockchange"; "lockerror";
    "leftdown"; "leftup"; "rightdown"; "rightup"; "middledown"; "middleup";
    "backdown"; "backup"; "nextdown"; "nextup" ].

Definition origin : coords :=
  {| docX := 0; docY := 0; docPX := 0; docPY := 0;
     docDX := 0; docDY := 0; docDPX := 0; docDPY := 0;
     targetX := 0; targetY := 0; targetPX := 0; targetPY := 0 |}%float.

(** [new Mouse(target)]: every event name gets an array of its own, in
    the order of the literal; a target gets its two aliases. *)
Definition Mouse (target : option element) : instance :=
  {| target := alias_entry_points <$> target;
     events := list_to_map (zip event_names (seq 0 (length event_names)));
     events_proto := None;
     heap := replicate (length event_names) [];
     pos := origin;
     buttons := ∅;
     console := [];
     calls := [];
     platform := [] |}.

(** The own properties of a constructed instance; no handler adds one. *)
Definition Mouse_fields : list string :=
  [ "target"; "events"; "docX"; "docY"; "docPX"; "docPY"; "docDX"; "docDY";
    "docDPX"; "docDPY"; "targetX"; "targetY"; "targetPX"; "targetPY";
    "buttons"; "lockPointer"; "unlockPointer"; "down"; "on"; "off";
    "nameOf"; "codeOf" ].

(** ** Replaying button notifications *)

Inductive notification :=
  | Mousedown (e : MouseEvent)
  | Mouseup (e : MouseEvent).

Definition code (n : notification) : Z :=
  match n with
  | Mousedown e => button e
  | Mouseup e => button e
  end.

(** The host calls the handler; what the handler throws is reported by
    the host and the instance stays as the handler left it. *)
Definition notify (prog : program) (n : notification) (m : instance) : instance :=
  match n with
  | Mousedown e => snd (docDown prog e m)
  | Mouseup e => snd (docUp prog e m)
  end.

Definition replay (prog : program) (ns : list notification) (m : instance) : instance :=
  fold_left (fun m n => notify prog n m) ns m.

(** The most recent notification about the button [c] is a down. *)
Definition held (ns : list notification) (c : Z) : bool :=
  match find (fun n => Z.eqb (code n) c) (rev ns) with
  | Some (Mousedown _) => true
  | _ => false
  end.

(** ** Reading the instance *)

(** The listeners of an event name that is an own property. *)
Definition listeners (m : instance) (event : string) : option (list callback) :=
  events m !! event ≫= fun r => heap m !! r.

(** The part of the instance no listener touches. *)
Definition data (m : instance) : option element * coords * gset Z :=
  (target m, pos m, buttons m).

Definition is_digit (c : ascii) : bool :=
  let n := nat_of_ascii c in (48 <=? n)%nat && (n <=? 57)%nat.

Fixpoint all_digits (s : string) : bool :=
  match s with
  | EmptyString => true
  | String c s' => is_digit c && all_digits s'
  end.

(** The keys a prototype of [self.events] can supply. *)
Definition inheritable (k : string) : bool :=
  mem_string k object_prototype_keys
  || mem_string k array_prototype_keys
  || String.eqb k "length"
  || all_digits k.

(** What holds of the instance from construction on:
    every fixed event name is an own property; every own property
    refers to an array of the heap, and no two to the same one; an own
    property is a fixed name or a name [in] found along the chain. *)
Record wf (m : instance) : Prop := {
  wf_names : forall k, mem_string k event_names = true -> is_Some (events m !! k);
  wf_refs : forall k r, events m !! k = Some r -> r < length (heap m);
  wf_inj : forall k1 k2 r, events m !! k1 = Some r -> events m !! k2 = Some r -> k1 = k2;
  wf_keys : forall k, is_Some (events m !! k) ->
            mem_string k event_names = true \/ inheritable k = true;
}.

Definition is_string (v : value) : bool :=
  match v with
  | VStr _ => true
  | _ => false
  end.

(** The primitive values other than strings: [undefined], [null], the
    booleans and the numbers.  None has a method [toLowerCase]; an
    object may have one (a String object inherits it). *)
Definition primitive_non_string (v : value) : bool :=
  match v with
  | VUndefined | VNull | VBool _ | VNum _ => true
  | _ => false
  end.

(** The arguments on which [toLowerCase] above is the built-in. *)
Definition lowered_as_built_in (v : value) : bool :=
  match v with
  | VStr s => ascii_only s
  | _ => true
  end.

(** A fixed event name, or a name no prototype supplies. *)
Definition plain_name (k : string) : bool :=
  mem_string k event_names || negb (inheritable k).

(** A call a listener can make while [event] is being dispatched
    without disturbing the dispatch: it subscribes, unsubscribes
    ["all"], or unsubscribes one callback of another event than
    [event], all of it on plain names; or it queries the buttons or
    the table. *)
Definition gentle (event : string) (a : action) : bool :=
  match a with
  | CallOn e _ => plain_name e
  | CallOff e cb =>
      plain_name e
      && (strict_eq cb (VStr "all") || negb (String.eqb e event))
  | CallDown _ | CallNameOf _ => true
  | CallCodeOf name => is_string name
  | CallLockPointer | CallUnlockPointer | Raise => false
  end.

(** ** The life of an instance *)

(** What the application and the host do to an instance.  A movement
    over the target reaches the target's handler and then, bubbling,
    the document's: two operations one after the other. *)
Inductive operation :=
  | Call_on (event : string) (cb : callback)
  | Call_off (event : string) (cb : value)
  | Call_lockPointer
  | Call_unlockPointer
  | Call_down (button : value)
  | Host_button (n : notification)
  | Host_mousemove (w : window) (e : MouseEvent)
  | Host_target_mousemove (w : window) (e : MouseEvent)
  | Host_pointerlockchange (d : document)
  | Host_pointerlockerror.

Definition perform (prog : program) (op : operation) (m : instance) : instance :=
  match op with
  | Call_on event cb => snd (on event cb m)
  | Call_off event cb => snd (off event cb m)
  | Call_lockPointer => snd (lock m)
  | Call_unlockPointer => snd (unlock m)
  | Call_down button => snd (pressed button m)
  | Host_button n => notify prog n m
  | Host_mousemove w e => snd (docMove prog w e m)
  | Host_target_mousemove w e => snd (targetMove prog w e m)
  | Host_pointerlockchange d => snd (lockChange prog d m)
  | Host_pointerlockerror => snd (lockError prog m)
  end.

Inductive reachable (prog : program) : instance -> Prop :=
  | reachable_new t : reachable prog (Mouse t)
  | reachable_step op m : reachable prog m -> reachable prog (perform prog op m).

(** The state of a dispatch of [event] under way on the array [r] that
    held [l] when it started: the array still begins with [l], and no
    other name refers to it. *)
Definition traversing (event : string) (r : nat) (l : list callback) (m : instance) : Prop :=
  wf m
  /\ (exists extra, heap m !! r = Some (l ++ extra))
  /\ (forall k, events m !! k = Some r -> k = event).

(** ** Examples *)

Definition screen (width height : float) : window :=
  {| innerWidth := width; innerHeight := height |}.

Definition click (b : Z) : MouseEvent :=
  {| button := b; pageX := 0; pageY := 0; movementX := 0; movementY := 0;
     clientX := 0; clientY := 0 |}.

Definition pointer_at (x y : float) : MouseEvent :=
  {| button := 0; pageX := x; pageY := y; movementX := 0; movementY := 0;
     clientX := x; clientY := y |}.

(** No listener does anything. *)
Definition quiet : program := fun _ _ => [].

(** The listener [f] unsubscribes itself from [event]; the others do nothing. *)
Definition once (event : string) (f : callback) : program :=
  fun g _ => if Nat.eqb g f then [CallOff event (VFun f)] else [].

(** The listener 8 unsubscribes every listener of [move] and subscribes 9. *)
Definition resubscribe : program :=
  fun g _ => if Nat.eqb g 8 then [CallOff "move" (VStr "all"); CallOn "move" 9] else [].

(** A new instance with the listeners 8 and 7 on [move], in that order. *)
Definition two_listeners : instance :=
  snd (on "move" 7 (snd (on "move" 8 (Mouse None)))).

(** An identifier the button table knows: a name in any letter case,
    or one of the codes. *)
Definition recognized (v : value) : bool :=
  match v with
  | VStr s => mem_string (toLowerCase s) (map fst buttonCodes)
  | VNum n => bool_decide (n ∈ map snd buttonCodes)
  | _ => false
  end.

(** A document in which the standard accessor reports the element [id]
    as captured and the vendor accessors do not exist. *)
Definition captured (id : nat) : document :=
  {| pointerLockElement := VElem id;
     mozPointerLockElement := VUndefined;
     webkitPointerLockElement := VUndefined |}.

(** An element with the given box and no pointer-lock entry point. *)
Definition plain_element (id : nat) (left top width height : float) : element :=
  {| elem_id := id; clientWidth := width; clientHeight := height;
     rectLeft := left; rectTop := top;
     requestPointerLock := false; mozRequestPointerLock := false;
     webkitRequestPointerLock := false; exitPointerLock := false;
     mozExitPointerLock := false; webkitExitPointerLock := false;
     requestLock := None; requestUnlock := None |}.

(** An element as browsers provide it: it can request the capture;
    releasing it is a method of the document, not of the element. *)
Definition dom_element : element :=
  {| elem_id := 2; clientWidth := 300; clientHeight := 150;
     rectLeft := 0; rectTop := 0;
     requestPointerLock := true; mozRequestPointerLock := false;
     webkitRequestPointerLock := false; exitPointerLock := false;
     mozExitPointerLock := false; webkitExitPointerLock := false;
     requestLock := None; requestUnlock := None |}.

(** A box of 200 by 100 whose top-left corner is at (100, 50). *)
Definition canvas : element := plain_element 1 100 50 200 100.

(** A new instance on [t] with one listener on each capture event. *)
Definition lock_listeners (t : element) : instance :=
  snd (on "unlock" 3 (snd (on "lock" 2 (snd (on "lockchange" 1 (Mouse (Some t))))))).

(** ** Sequences of operations *)

Definition perform_all (prog : program) (ops : list operation) (m : instance) : instance :=
  fold_left (fun m op => perform prog op m) ops m.

(** [on(event, f)] for each [f] of [fs], in order. *)
Definition subscribe_all (event : string) (fs : list callback) (m : instance) : instance :=
  fold_left (fun m f => snd (on event f m)) fs m.

Definition is_movement (op : operation) : bool :=
  match op with
  | Host_mousemove _ _ | Host_target_mousemove _ _ => true
  | _ => false
  end.

(** The listener 7 throws; the others do nothing. *)
Definition grumpy : program := fun g _ => if Nat.eqb g 7 then [Raise] else [].

(** A document of an engine that has the standard accessor only, with
    nothing captured. *)
Definition nothing_captured : document :=
  {| pointerLockElement := VNull;
     mozPointerLockElement := VUndefined;
     webkitPointerLockElement := VUndefined |}.

(** A new instance without target, with one listener on each capture event. *)
Definition targetless_listeners : instance :=
  snd (on "unlock" 3 (snd (on "lock" 2 (snd (on "lockchange" 1 (Mouse None)))))).

(** While the listener table has the prototype it was created with, its
    own properties are fixed event names or names of
    [Object.prototype]. *)
Definition tidy (m : instance) : Prop :=
  events_proto m = None ->
  forall k, is_Some (events m !! k) ->
  mem_string k event_names = true \/ mem_string k object_prototype_keys = true.

(** A new instance after [on "move" 7], [off "toString" "all"] and a
    button-down notification. *)
Definition used : instance :=
  perform_all quiet
    [Call_on "move" 7; Call_off "toString" (VStr "all"); Host_button (Mousedown (click 0))]
    (Mouse None).

(** * Properties *)

(** ** Strings and keys *)

Lemma mem_string_spec k l : mem_string k l = true <-> k ∈ l.
Proof.
  unfold mem_string. rewrite existsb_exists, list_elem_of_In. split.
  - intros (x & Hx & He). apply String.eqb_eq in He. by subst.
  - intros H. exists k. split; [done | apply String.eqb_refl].
Qed.

Lemma all_digits_string_of_uint d : all_digits (NilEmpty.string_of_uint d) = true.
Proof. induction d; simpl; auto. Qed.

Lemma index_of_key_digits k n i : index_of_key k n = Some i -> all_digits k = true.
Proof.
  unfold index_of_key. intros H. apply find_some in H as [_ H].
  apply String.eqb_eq in H. subst. apply all_digits_string_of_uint.
Qed.

Lemma events_in_own_or_inheritable m k :
  events_in m k = true -> is_Some (events m !! k) \/ inheritable k = true.
Proof.
  unfold events_in, inheritable. destruct (events m !! k) eqn:E; [by left; eauto|].
  intros H. right. apply orb_true_iff in H as [H|H]; [by rewrite H|].
  destruct (events_proto m) as [r|]; [|done].
  apply orb_true_iff in H as [H|H]; [apply orb_true_iff in H as [H|H]|].
  - apply bool_decide_eq_true in H as [i Hi]. apply index_of_key_digits in Hi.
    rewrite Hi. by rewrite !orb_true_r.
  - rewrite H. by rewrite !orb_true_r.
  - rewrite H. by rewrite !orb_true_r.
Qed.

Lemma own_events_in m k r : events m !! k = Some r -> events_in m k = true.
Proof. unfold events_in. by intros ->. Qed.

Lemma own_events_get m k r : events m !! k = Some r -> events_get m k = VArr r.
Proof. unfold events_get. by intros ->. Qed.

(** ** What subscription and dispatch leave alone *)

Lemma events_set_data k r m : data (events_set k r m) = data m.
Proof. unfold events_set. destruct (events m !! k); [done|]. by destruct (String.eqb _ _). Qed.

Lemma on_data event cb m : data (snd (on event cb m)) = data m.
Proof.
  unfold on. destruct (events_in m event); [|done].
  by destruct (events_get m event).
Qed.

Lemma off_data event cb m : data (snd (off event cb m)) = data m.
Proof.
  unfold off. destruct (strict_eq cb (VStr "all")).
  - destruct (events_in m event); [|done]. simpl. by rewrite events_set_data.
  - destruct (events_in m event); [|done].
    destruct (events_get m event); try done.
    by destruct (indexOf cb (array m r)).
Qed.

Lemma pressed_data b m : data (snd (pressed b m)) = data m.
Proof. unfold pressed. simpl. by destruct (_ || _). Qed.

Lemma lock_data m : data (snd (lock m)) = data m.
Proof. unfold lock. destruct (target m) as [t|]; [|done]. by destruct (requestLock t). Qed.

Lemma unlock_data m : data (snd (unlock m)) = data m.
Proof. unfold unlock. destruct (target m) as [t|]; [|done]. by destruct (requestUnlock t). Qed.

Lemma discard_snd {A} (c : completion A * instance) : snd (discard c) = snd c.
Proof. by destruct c as [[?|?] ?]. Qed.

Lemma run_action_data a m : data (snd (run_action a m)) = data m.
Proof.
  destruct a; unfold run_action; rewrite ?discard_snd; cbn [snd];
    auto using on_data, off_data, pressed_data, lock_data, unlock_data.
Qed.

Lemma run_actions_data l m : data (snd (run_actions l m)) = data m.
Proof.
  revert m. induction l as [|a l IH]; intros m; simpl; [done|].
  pose proof (run_action_data a m) as H.
  destruct (run_action a m) as [[?|?] m']; simpl in *; [|done].
  by rewrite IH.
Qed.

Lemma invoke_data prog f p m : data (snd (invoke prog f p m)) = data m.
Proof. unfold invoke. by rewrite run_actions_data. Qed.

Lemma emit_from_data prog r p k n m :
  data (snd (emit_from prog r p k n m)) = data m.
Proof.
  revert k m. induction n as [|n IH]; intros k m; simpl; [done|].
  destruct (array m r !! k) as [f|]; [|apply IH].
  pose proof (invoke_data prog f p m) as H.
  destruct (invoke prog f p m) as [[?|?] m']; simpl in *; [|done].
  by rewrite IH.
Qed.

Lemma emit_data prog event p m : data (snd (emit prog event p m)) = data m.
Proof.
  unfold emit. destruct (events_get m event); try done. apply emit_from_data.
Qed.

Lemma and_then_emit_data prog c event p :
  data (snd (and_then c (fun _ : unit => emit prog event p))) = data (snd c).
Proof. destruct c as [[?|?] m]; simpl; [apply emit_data | done]. Qed.

Lemma data_buttons m1 m2 : data m1 = data m2 -> buttons m1 = buttons m2.
Proof. unfold data. congruence. Qed.

Lemma data_pos m1 m2 : data m1 = data m2 -> pos m1 = pos m2.
Proof. unfold data. congruence. Qed.

Lemma emit_pos prog event p m : pos (snd (emit prog event p m)) = pos m.
Proof. apply data_pos, emit_data. Qed.

(** ** The invariant *)

Lemma Mouse_events_lookup t k r :
  events (Mouse t) !! k = Some r <-> event_names !! r = Some k.
Proof.
  change (events (Mouse t))
    with (list_to_map (zip event_names (seq 0 (length event_names))) : gmap string nat).
  rewrite <- (elem_of_list_to_map (M := gmap string)).
  - rewrite list_elem_of_lookup. split.
    + intros [i Hi]. apply lookup_zip_with_Some in Hi as (x & y & Heq & Hx & Hy).
      apply lookup_seq in Hy as [-> _]. simpl in Heq. by inversion Heq; subst.
    + intros H. exists r. apply lookup_zip_with_Some. exists k, r.
      split; [done|]. split; [done|]. apply lookup_seq. split; [done|].
      by apply lookup_lt_Some in H.
  - rewrite fst_zip by (rewrite length_seq; lia).
    apply (bool_decide_unpack _). vm_compute. reflexivity.
Qed.

Lemma wf_Mouse t : wf (Mouse t).
Proof.
  split.
  - intros k Hk. apply mem_string_spec, list_elem_of_lookup_1 in Hk as [r Hr].
    exists r. by apply Mouse_events_lookup.
  - intros k r H. apply Mouse_events_lookup, lookup_lt_Some in H. exact H.
  - intros k1 k2 r H1 H2. apply Mouse_events_lookup in H1, H2. congruence.
  - intros k [r H]. left. apply Mouse_events_lookup in H.
    apply mem_string_spec. by eapply list_elem_of_lookup_2.
Qed.

(** The invariant only reads the own properties and the size of the heap. *)
Lemma wf_same m m' :
  events m' = events m -> length (heap m) <= length (heap m') -> wf m -> wf m'.
Proof.
  intros He Hh [H1 H2 H3 H4]. split; rewrite ?He; auto.
  intros k r H. apply H2 in H. lia.
Qed.

Lemma wf_insert_fresh m k :
  wf m -> is_Some (events m !! k) \/ inheritable k = true ->
  wf (set_events (insert k (fresh m)) (alloc m)).
Proof.
  intros [H1 H2 H3 H4] Hk. unfold fresh. split; simpl.
  - intros k' Hk'. destruct (decide (k = k')) as [->|Hne].
    + rewrite lookup_insert_eq. eauto.
    + rewrite lookup_insert_ne by done. auto.
  - intros k' r. rewrite length_app. simpl. destruct (decide (k = k')) as [->|Hne].
    + rewrite lookup_insert_eq. intros [= <-]. lia.
    + rewrite lookup_insert_ne by done. intros H. apply H2 in H. lia.
  - intros k1 k2 r.
    destruct (decide (k = k1)) as [Heq1|Hne1], (decide (k = k2)) as [Heq2|Hne2].
    + congruence.
    + subst k1. rewrite lookup_insert_eq, lookup_insert_ne by done.
      intros [= <-] H. apply H2 in H. lia.
    + subst k2. rewrite lookup_insert_eq, lookup_insert_ne by done.
      intros H [= <-]. apply H2 in H. lia.
    + rewrite !lookup_insert_ne by done. apply H3.
  - intros k'. destruct (decide (k = k')) as [->|Hne].
    + intros _. destruct Hk as [Hk|Hk]; [exact (H4 _ Hk) | by right].
    + rewrite lookup_insert_ne by done. exact (H4 k').
Qed.

(** A step that keeps the own properties and does not shrink the heap. *)
Ltac same_shape m :=
  apply (wf_same m);
  [ reflexivity
  | simpl; rewrite ?length_alter, ?length_app; lia
  | assumption ].

Lemma wf_on event cb m : wf m -> wf (snd (on event cb m)).
Proof.
  intros Hwf. unfold on. destruct (events_in m event); [|same_shape m].
  destruct (events_get m event); try done. same_shape m.
Qed.

Lemma wf_off event cb m : wf m -> wf (snd (off event cb m)).
Proof.
  intros Hwf. unfold off. destruct (strict_eq cb (VStr "all")).
  - destruct (events_in m event) eqn:Hin; [|same_shape m].
    simpl. unfold events_set. simpl.
    destruct (events m !! event) eqn:Hown.
    + apply wf_insert_fresh; [done | left; rewrite Hown; eauto].
    + destruct (String.eqb event "__proto__"); [same_shape m|].
      apply wf_insert_fresh; [done|].
      apply events_in_own_or_inheritable in Hin as [Hin|Hin]; auto.
  - destruct (events_in m event); [|same_shape m].
    destruct (events_get m event); try done.
    destruct (indexOf cb (array m r)); same_shape m.
Qed.

Lemma wf_pressed b m : wf m -> wf (snd (pressed b m)).
Proof. intros Hwf. unfold pressed. simpl. destruct (_ || _); [same_shape m | done]. Qed.

Lemma wf_lock m : wf m -> wf (snd (lock m)).
Proof.
  intros Hwf. unfold lock. destruct (target m) as [t|]; [|same_shape m].
  destruct (requestLock t); [same_shape m | done].
Qed.

Lemma wf_unlock m : wf m -> wf (snd (unlock m)).
Proof.
  intros Hwf. unfold unlock. destruct (target m) as [t|]; [|same_shape m].
  destruct (requestUnlock t); [same_shape m | done].
Qed.

Lemma wf_run_action a m : wf m -> wf (snd (run_action a m)).
Proof.
  intros Hwf. destruct a; unfold run_action; rewrite ?discard_snd; cbn [snd];
    auto using wf_on, wf_off, wf_pressed, wf_lock, wf_unlock.
Qed.

Lemma wf_run_actions l m : wf m -> wf (snd (run_actions l m)).
Proof.
  revert m. induction l as [|a l IH]; intros m Hwf; simpl; [done|].
  pose proof (wf_run_action a m Hwf) as H.
  destruct (run_action a m) as [[?|?] m']; simpl in *; [by apply IH | done].
Qed.

Lemma wf_invoke prog f p m : wf m -> wf (snd (invoke prog f p m)).
Proof. intros Hwf. unfold invoke. apply wf_run_actions. same_shape m. Qed.

Lemma wf_emit_from prog r p k n m : wf m -> wf (snd (emit_from prog r p k n m)).
Proof.
  revert k m. induction n as [|n IH]; intros k m Hwf; simpl; [done|].
  destruct (array m r !! k) as [f|]; [|by apply IH].
  pose proof (wf_invoke prog f p m Hwf) as H.
  destruct (invoke prog f p m) as [[?|?] m']; simpl in *; [by apply IH | done].
Qed.

Lemma wf_emit prog event p m : wf m -> wf (snd (emit prog event p m)).
Proof.
  intros Hwf. unfold emit. destruct (events_get m event); try done.
  by apply wf_emit_from.
Qed.

Lemma wf_and_then_emit prog c event p :
  wf (snd c) -> wf (snd (and_then c (fun _ : unit => emit prog event p))).
Proof. destruct c as [[?|?] m]; simpl; [apply wf_emit | done]. Qed.

Create HintDb wf.
#[global] Hint Resolve wf_Mouse wf_on wf_off wf_pressed wf_lock wf_unlock
  wf_emit wf_and_then_emit : wf.

Lemma wf_perform prog op m : wf m -> wf (perform prog op m).
Proof.
  intros Hwf. destruct op as [e cb|e cb| | |b|[e|e]|w e|w e|d|];
    unfold perform, notify; auto with wf.
  - unfold docDown. apply wf_and_then_emit, wf_emit. same_shape m.
  - unfold docUp. apply wf_and_then_emit, wf_emit. same_shape m.
  - unfold docMove. apply wf_emit. same_shape m.
  - unfold targetMove. destruct (target m) as [t|]; [|same_shape m].
    unfold docMove. apply wf_emit. same_shape m.
  - unfold lockChange. auto with wf.
  - unfold lockError. auto with wf.
Qed.

(** Every instance the application and the host can produce satisfies
    the invariant. *)
Lemma reachable_wf prog m : reachable prog m -> wf m.
Proof. induction 1; [apply wf_Mouse | by apply wf_perform]. Qed.

(** ** Names no prototype supplies *)

Lemma foreign_own m k :
  wf m -> mem_string k event_names = false -> inheritable k = false ->
  events m !! k = None.
Proof.
  intros Hwf Hn Hi. destruct (events m !! k) as [r|] eqn:E; [|done].
  destruct (wf_keys m Hwf k) as [H|H]; [rewrite E; eauto | congruence..].
Qed.

Lemma events_in_foreign m k :
  wf m -> mem_string k event_names = false -> inheritable k = false ->
  events_in m k = false.
Proof.
  intros Hwf Hn Hi. pose proof (foreign_own m k Hwf Hn Hi) as Hown.
  destruct (events_in m k) eqn:Hin; [|done].
  apply events_in_own_or_inheritable in Hin as [[r Hr]|Hin]; congruence.
Qed.

Lemma events_get_foreign m k :
  wf m -> mem_string k event_names = false -> inheritable k = false ->
  events_get m k = VUndefined.
Proof.
  intros Hwf Hn Hi. pose proof (foreign_own m k Hwf Hn Hi) as Hown.
  unfold inheritable in Hi.
  apply orb_false_iff in Hi as [Hi Hdig]. apply orb_false_iff in Hi as [Hi Hlen].
  apply orb_false_iff in Hi as [Hobj Harr].
  unfold events_get. rewrite Hown, Hobj.
  destruct (events_proto m) as [r|]; [|done].
  destruct (index_of_key k _) as [i|] eqn:Hidx.
  { apply index_of_key_digits in Hidx. congruence. }
  rewrite Hlen, Harr.
  destruct (String.eqb_spec k "__proto__") as [->|_]; [discriminate Hobj | done].
Qed.

Lemma emit_foreign prog k p m :
  wf m -> mem_string k event_names = false -> inheritable k = false ->
  emit prog k p m = (Throw TypeError, m).
Proof. intros. unfold emit. by rewrite events_get_foreign. Qed.

(** ** Dispatch while listeners change the table *)

Section Traversal.

(** A dispatch of [event] is under way on the array [r], which held [l]
    when the dispatch started. *)
Variables (event : string) (r : nat) (l : list callback).

Lemma traversing_same m m' :
  events m' = events m -> heap m' = heap m ->
  traversing event r l m -> traversing event r l m'.
Proof.
  intros He Hh (Hwf & Hr & Honly). split; [|by rewrite He, Hh].
  apply (wf_same m); [done | by rewrite Hh | done].
Qed.

Lemma gentle_step a m :
  traversing event r l m -> gentle event a = true ->
  exists m', run_action a m = (Return tt, m')
             /\ traversing event r l m' /\ calls m' = calls m.
Proof.
  intros Ht Hg. pose proof Ht as (Hwf & [extra Hr] & Honly).
  assert (forall e, plain_name e = true -> mem_string e event_names = false ->
                    events_in m e = false) as Hforeign.
  { intros e He Hn. unfold plain_name in He. rewrite Hn in He. simpl in He.
    apply negb_true_iff in He. by apply events_in_foreign. }
  destruct a as [e cb|e cb|b|c|name| | |]; simpl in Hg; try discriminate Hg.
  - simpl. unfold on. destruct (mem_string e event_names) eqn:Hn.
    + destruct (wf_names m Hwf e Hn) as [r' Hr'].
      rewrite (own_events_in m e r' Hr'), (own_events_get m e r' Hr').
      eexists. split; [reflexivity|]. split; [|done].
      split; [same_shape m|]. split; [|done]. simpl.
      destruct (decide (r' = r)) as [->|Hne].
      * rewrite list_lookup_alter_eq, Hr. simpl. exists (extra ++ [cb]).
        by rewrite app_assoc.
      * rewrite list_lookup_alter_ne by done. eauto.
    + rewrite (Hforeign e Hg Hn). eexists. split; [reflexivity|].
      split; [by apply (traversing_same m) | done].
  - apply andb_true_iff in Hg as [He Hcb]. simpl. unfold off.
    destruct (mem_string e event_names) eqn:Hn.
    + destruct (wf_names m Hwf e Hn) as [r' Hr'].
      rewrite (own_events_in m e r' Hr').
      destruct (strict_eq cb (VStr "all")) eqn:Hall.
      * unfold events_set. simpl. rewrite Hr'.
        eexists. split; [reflexivity|]. split; [|done].
        pose proof (lookup_lt_Some _ _ _ Hr) as Hlt.
        split; [apply wf_insert_fresh; [done | left; rewrite Hr'; eauto]|].
        split; simpl.
        -- exists extra. by rewrite lookup_app_l.
        -- intros k. destruct (decide (e = k)) as [->|Hne].
           ++ rewrite lookup_insert_eq. unfold fresh. intros [= Heq]. lia.
           ++ rewrite lookup_insert_ne by done. apply Honly.
      * simpl in Hcb. apply negb_true_iff, String.eqb_neq in Hcb.
        rewrite (own_events_get m e r' Hr').
        destruct (indexOf cb (array m r')) as [i|].
        -- eexists. split; [reflexivity|]. split; [|done].
           split; [same_shape m|]. split; [|done]. simpl. exists extra.
           rewrite list_lookup_alter_ne; [done|].
           intros ->. by apply Hcb, Honly.
        -- eexists. split; [reflexivity|].
           split; [by apply (traversing_same m) | done].
    + rewrite (Hforeign e He Hn).
      destruct (strict_eq cb (VStr "all")); eexists;
        (split; [reflexivity|]); (split; [by apply (traversing_same m) | done]).
  - simpl. eexists. split; [reflexivity|]. unfold pressed. simpl.
    destruct (_ || _); (split; [by apply (traversing_same m) | done]).
  - simpl. eauto.
  - destruct name; try discriminate Hg. simpl. eauto.
Qed.

Lemma gentle_steps acts m :
  traversing event r l m -> forallb (gentle event) acts = true ->
  exists m', run_actions acts m = (Return tt, m')
             /\ traversing event r l m' /\ calls m' = calls m.
Proof.
  revert m. induction acts as [|a acts IH]; intros m Ht Hg; simpl.
  - eauto.
  - simpl in Hg. apply andb_true_iff in Hg as [Ha Hacts].
    destruct (gentle_step a m Ht Ha) as (m1 & -> & Ht1 & Hc1).
    destruct (IH m1 Ht1 Hacts) as (m2 & -> & Ht2 & Hc2).
    exists m2. split; [done|]. split; [done | congruence].
Qed.

Variables (prog : program) (p : payload).
Hypothesis prog_gentle : forall f q, forallb (gentle event) (prog f q) = true.

Lemma gentle_traversal n k m :
  traversing event r l m -> k + n = length l ->
  exists m', emit_from prog r p k n m = (Return tt, m')
             /\ traversing event r l m'
             /\ calls m' = calls m ++ map (fun f => (f, p)) (drop k l).
Proof.
  revert k m. induction n as [|n IH]; intros k m Ht Hk; simpl.
  - exists m. split; [done|]. split; [done|].
    rewrite drop_ge by lia. simpl. by rewrite app_nil_r.
  - destruct (lookup_lt_is_Some_2 l k) as [f Hf]; [lia|].
    assert (array m r !! k = Some f) as ->.
    { destruct Ht as (_ & [extra Hr] & _). unfold array. rewrite Hr. simpl.
      rewrite lookup_app_l; [done | lia]. }
    unfold invoke.
    assert (traversing event r l (record_call f p m)) as Ht1
      by (by apply (traversing_same m)).
    destruct (gentle_steps (prog f p) _ Ht1 (prog_gentle f p))
      as (m1 & -> & Ht2 & Hc2).
    destruct (IH (S k) m1 Ht2) as (m2 & -> & Ht3 & Hc3); [lia|].
    exists m2. split; [done|]. split; [done|].
    rewrite Hc3, Hc2, (drop_S l f k Hf). simpl. by rewrite <- app_assoc.
Qed.

End Traversal.

(** C4, as the code has it.  While an event is being dispatched, a
    listener that subscribes a callback, or unsubscribes ["all"], on the
    event being dispatched or any other plain name, or unsubscribes a
    single callback from another event, does not affect the dispatch
    under way: every callback registered for the event when the
    dispatch started is called exactly once with the payload, in
    registration order, nothing else is called, and the dispatch
    returns. *)
Theorem emit_gentle prog event p m l :
  wf m ->
  listeners m event = Some l ->
  (forall f q, forallb (gentle event) (prog f q) = true) ->
  exists m', emit prog event p m = (Return tt, m')
             /\ calls m' = calls m ++ map (fun f => (f, p)) l
             /\ wf m'.
Proof.
  intros Hwf Hl Hprog. unfold listeners in Hl.
  destruct (events m !! event) as [r|] eqn:Hr; [|done]. simpl in Hl.
  unfold emit. rewrite (own_events_get m event r Hr).
  assert (array m r = l) as Harr by (unfold array; by rewrite Hl).
  destruct (gentle_traversal event r l prog p Hprog (length l) 0 m)
    as (m' & He & (Hwf' & _) & Hc).
  - split; [done|]. split; [exists []; by rewrite app_nil_r|].
    intros k Hk. by eapply wf_inj.
  - done.
  - exists m'. rewrite Harr. by rewrite drop_0 in Hc.
Qed.

Lemma emit_gentle_witness :
  exists m', emit resubscribe "move" (PValue VNull) two_listeners = (Return tt, m')
             /\ calls m' = calls two_listeners
                            ++ map (fun f => (f, PValue VNull)) [8; 7]
             /\ wf m'.
Proof.
  apply (emit_gentle resubscribe "move" (PValue VNull) two_listeners [8; 7]).
  - unfold two_listeners. auto with wf.
  - vm_compute. reflexivity.
  - intros f q. unfold resubscribe. destruct (Nat.eqb f 8); reflexivity.
Defined.

(** C4, as stated, fails.  The listeners 8 and 7 are registered on
    [move], in that order, and 8 does nothing but unsubscribe itself
    when called; no listener throws.  The dispatch of [move] returns
    having called 8 and nothing else: 7, registered when the dispatch
    started, is not called, and is the one listener left. *)
Lemma emit_not_snapshot :
  listeners two_listeners "move" = Some [8; 7]
  /\ once "move" 8 8 (PValue VNull) = [CallOff "move" (VFun 8)]
  /\ once "move" 8 7 (PValue VNull) = []
  /\ calls two_listeners = []
  /\ fst (emit (once "move" 8) "move" (PValue VNull) two_listeners) = Return tt
  /\ calls (snd (emit (once "move" 8) "move" (PValue VNull) two_listeners))
     = [(8, PValue VNull)]
  /\ listeners (snd (emit (once "move" 8) "move" (PValue VNull) two_listeners)) "move"
     = Some [7].
Proof. repeat split; vm_compute; reflexivity. Qed.

(** ** Dispatch to listeners that only observe *)

Section Observers.

Variable prog : program.
Hypothesis observers : forall f q, prog f q = [].

Lemma emit_from_observers r p n k m :
  exists m', emit_from prog r p k n m = (Return tt, m')
             /\ calls m' = calls m
                            ++ map (fun f => (f, p)) (take n (drop k (array m r)))
             /\ events m' = events m /\ heap m' = heap m
             /\ console m' = console m /\ data m' = data m.
Proof.
  revert k m. induction n as [|n IH]; intros k m; simpl.
  - exists m. rewrite app_nil_r. auto 10.
  - destruct (array m r !! k) as [f|] eqn:Hk.
    + unfold invoke. rewrite observers. simpl.
      destruct (IH (S k) (record_call f p m)) as (m' & -> & Hc & He & Hh & Hco & Hd).
      exists m'. split; [done|]. split; [|auto].
      rewrite Hc. change (array (record_call f p m) r) with (array m r).
      rewrite (drop_S _ _ _ Hk). simpl. by rewrite <- app_assoc.
    + destruct (IH (S k) m) as (m' & -> & Hc & Hrest).
      exists m'. split; [done|]. split; [|done].
      apply lookup_ge_None in Hk.
      rewrite Hc, !drop_ge by lia. by rewrite !take_nil.
Qed.

Lemma emit_observers event p m l :
  listeners m event = Some l ->
  exists m', emit prog event p m = (Return tt, m')
             /\ calls m' = calls m ++ map (fun f => (f, p)) l
             /\ events m' = events m /\ heap m' = heap m
             /\ console m' = console m /\ data m' = data m.
Proof.
  intros Hl. unfold listeners in Hl.
  destruct (events m !! event) as [r|] eqn:Hr; [|done]. simpl in Hl.
  unfold emit. rewrite (own_events_get m event r Hr).
  assert (array m r = l) as Harr by (unfold array; by rewrite Hl).
  destruct (emit_from_observers r p (length (array m r)) 0 m)
    as (m' & -> & Hc & Hrest).
  exists m'. split; [done|]. split; [|done].
  by rewrite Hc, drop_0, firstn_all, Harr.
Qed.

End Observers.

(** ** Buttons *)

Lemma docDown_buttons prog e m :
  buttons (snd (docDown prog e m)) = {[ button e ]} ∪ buttons m.
Proof.
  unfold docDown. erewrite data_buttons; [|apply and_then_emit_data].
  erewrite data_buttons; [|apply emit_data]. done.
Qed.

Lemma docUp_buttons prog e m :
  buttons (snd (docUp prog e m)) = buttons m ∖ {[ button e ]}.
Proof.
  unfold docUp. erewrite data_buttons; [|apply and_then_emit_data].
  erewrite data_buttons; [|apply emit_data]. done.
Qed.

Lemma replay_snoc prog ns n m :
  replay prog (ns ++ [n]) m = notify prog n (replay prog ns m).
Proof. unfold replay. by rewrite fold_left_app. Qed.

(** From any instance: the last notification about a code decides, and
    a code no notification mentions stays as it was. *)
Lemma replay_buttons_from prog ns m c :
  c ∈ buttons (replay prog ns m) <->
  match find (fun n => Z.eqb (code n) c) (rev ns) with
  | Some (Mousedown _) => True
  | Some (Mouseup _) => False
  | None => c ∈ buttons m
  end.
Proof.
  induction ns as [|n ns IH] using rev_ind; [done|].
  rewrite replay_snoc, rev_app_distr. simpl.
  destruct (Z.eqb_spec (code n) c) as [Hc|Hc].
  - destruct n as [e|e]; simpl in *.
    + rewrite docDown_buttons, elem_of_union, elem_of_singleton.
      split; [done | intros _; by left].
    + rewrite docUp_buttons, elem_of_difference, elem_of_singleton.
      split; [intros [_ H]; by apply H | done].
  - rewrite <- IH. destruct n as [e|e]; simpl in *.
    + rewrite docDown_buttons, elem_of_union, elem_of_singleton.
      split; [intros [?|?]; [congruence | done] | tauto].
    + rewrite docUp_buttons, elem_of_difference, elem_of_singleton.
      split; [tauto | intros ?; split; [done | congruence]].
Qed.

(** C7. After any sequence of button-down and button-up notifications
    replayed on a newly constructed instance, whatever the listeners
    call or throw, a code is in [buttons] exactly when the most recent
    notification about that code in the sequence is a down. *)
Theorem replay_buttons_held prog t ns c :
  c ∈ buttons (replay prog ns (Mouse t)) <-> held ns c = true.
Proof.
  rewrite replay_buttons_from. unfold held.
  destruct (find _ (rev ns)) as [[e|e]|]; simpl.
  - tauto.
  - split; [tauto | discriminate].
  - split; [|discriminate]. intros H. by apply not_elem_of_empty in H.
Qed.

(** C1, which the code does not meet.  On every instance the
    application and the host can produce, a button-down (resp.
    button-up) notification whose code has no name in the table adds
    the code to (resp. removes it from) [buttons] and then throws a
    [TypeError] at the dispatch of [undefineddown] (resp.
    [undefinedup]), a name the listener table never has: no listener is
    called and [anydown] (resp. [anyup]) is not dispatched. *)
Theorem docDown_unnamed_button_throws prog e m :
  wf m ->
  nameOf (VNum (button e)) = None ->
  docDown prog e m
  = (Throw TypeError, set_buttons (fun s => {[ button e ]} ∪ s) m)
  /\ docUp prog e m
     = (Throw TypeError, set_buttons (fun s => s ∖ {[ button e ]}) m).
Proof.
  intros Hwf Hname. unfold docDown, docUp. rewrite Hname. simpl template.
  split.
  - change ("undefined" ++ "down")%string with "undefineddown".
    rewrite emit_foreign; [done | same_shape m | done..].
  - change ("undefined" ++ "up")%string with "undefinedup".
    rewrite emit_foreign; [done | same_shape m | done..].
Qed.

Lemma docDown_unnamed_button_throws_witness :
  docDown quiet (click 5) (Mouse None)
  = (Throw TypeError, set_buttons (fun s => {[ 5%Z ]} ∪ s) (Mouse None))
  /\ docUp quiet (click 5) (Mouse None)
     = (Throw TypeError, set_buttons (fun s => s ∖ {[ 5%Z ]}) (Mouse None)).
Proof.
  apply (docDown_unnamed_button_throws quiet (click 5) (Mouse None)).
  - apply wf_Mouse.
  - reflexivity.
Defined.

(** With a code the table names, and listeners that only observe, the
    handler does what its documentation says. *)
Lemma docDown_named_button prog e m name l1 l2 :
  (forall f q, prog f q = []) ->
  nameOf (VNum (button e)) = Some name ->
  listeners m (name ++ "down") = Some l1 ->
  listeners m "anydown" = Some l2 ->
  exists m', docDown prog e m = (Return tt, m')
             /\ buttons m' = {[ button e ]} ∪ buttons m
             /\ calls m' = calls m ++ map (fun f => (f, PEvent e)) (l1 ++ l2).
Proof.
  intros Hprog Hname Hl1 Hl2. unfold docDown. rewrite Hname. simpl template.
  destruct (emit_observers prog Hprog (name ++ "down") (PEvent e)
              (set_buttons (fun s => {[ button e ]} ∪ s) m) l1 Hl1)
    as (m1 & -> & Hc1 & He1 & Hh1 & _ & Hd1). simpl.
  assert (listeners m1 "anydown" = Some l2) as Hl2'
    by (unfold listeners; by rewrite He1, Hh1).
  destruct (emit_observers prog Hprog "anydown" (PEvent e) m1 l2 Hl2')
    as (m2 & -> & Hc2 & _ & _ & _ & Hd2).
  exists m2. split; [done|]. split.
  - apply data_buttons in Hd1, Hd2. by rewrite Hd2, Hd1.
  - by rewrite Hc2, Hc1, map_app, app_assoc.
Qed.

(** ** The button table *)

Lemma valid_name_cases k :
  mem_string k (map fst buttonCodes) = true ->
  k = "left" \/ k = "middle" \/ k = "right" \/ k = "back" \/ k = "next".
Proof.
  rewrite mem_string_spec. simpl. rewrite !elem_of_cons, elem_of_nil. tauto.
Qed.

(** C9. The table maps left, middle, right, back, next to 0..4 and
    back.  For every code [c] of 0..4, [codeOf(nameOf(c))] is [c]; for
    every string [s] that spells a button name in any letter case,
    [codeOf(s)] is a code whose name is that button name, in the
    table's (lower-case) spelling; on the five names as the table
    spells them [nameOf(codeOf(n))] is [n] itself. *)
Theorem buttonCodes_round_trips (c : Z) (s : string) :
  (0 <= c <= 4)%Z ->
  mem_string (toLowerCase s) (map fst buttonCodes) = true ->
  (exists n, nameOf (VNum c) = Some n /\ codeOf (VStr n) = Return (VNum c))
  /\ (exists k, codeOf (VStr s) = Return (VNum k)
                /\ nameOf (VNum k) = Some (toLowerCase s))
  /\ Forall (fun nk => codeOf (VStr (fst nk)) = Return (VNum (snd nk))
                       /\ nameOf (VNum (snd nk)) = Some (fst nk))
       [ ("left", 0%Z); ("middle", 1%Z); ("right", 2%Z); ("back", 3%Z);
         ("next", 4%Z) ].
Proof.
  intros Hc Hs. split; [|split].
  - assert (c = 0 \/ c = 1 \/ c = 2 \/ c = 3 \/ c = 4)%Z as Hcases by lia.
    destruct Hcases as [->|[->|[->|[->| ->]]]]; eexists; split; reflexivity.
  - apply valid_name_cases in Hs. simpl.
    destruct Hs as [->|[->|[->|[->| ->]]]]; eexists; split; reflexivity.
  - repeat constructor.
Qed.

Lemma buttonCodes_round_trips_witness :
  (exists n, nameOf (VNum 3) = Some n /\ codeOf (VStr n) = Return (VNum 3))
  /\ (exists k, codeOf (VStr "MiDdLe") = Return (VNum k)
                /\ nameOf (VNum k) = Some "middle").
Proof.
  destruct (buttonCodes_round_trips 3 "MiDdLe") as (H1 & H2 & _);
    [lia | reflexivity |].
  split; [exact H1 | exact H2].
Defined.

(** ** Movement *)



(** C3, which the code does not meet.  After a target-scoped movement
    notification the stored target position is computed from the
    pointer's viewport coordinates [clientX], [clientY] and the
    target's current [clientWidth], [clientHeight] alone; where the
    target's box sits in the viewport plays no part, so a pointer at
    the target's own top-left corner gets the minimum -1 only when that
    corner is the viewport's.  The handler then runs the
    document-level move handling. *)
Theorem targetMove_reads_viewport_coordinates prog w e m t :
  target m = Some t ->
  let m' := snd (targetMove prog w e m) in
  targetX (pos m') = ((clientX e / clientWidth t - 0.5) * 2)%float
  /\ targetY (pos m') = ((clientY e / clientHeight t - 0.5) * 2)%float
  /\ targetPX (pos m') = clientX e
  /\ targetPY (pos m') = clientY e
  /\ exists m1, targetMove prog w e m = docMove prog w e m1
                /\ events m1 = events m /\ heap m1 = heap m /\ calls m1 = calls m.
Proof.
  intros Ht m'. subst m'. unfold targetMove. rewrite Ht.
  unfold docMove at 1 2 3 4. rewrite !emit_pos. simpl.
  repeat (split; [reflexivity|]).
  eexists. split; [reflexivity|]. simpl. auto.
Qed.

Lemma targetMove_reads_viewport_coordinates_witness :
  let e := pointer_at (rectLeft canvas) (rectTop canvas) in
  let m' := snd (targetMove quiet (screen 1000 500) e (Mouse (Some canvas))) in
  (targetX (pos m') = 0 /\ targetY (pos m') = 0)%float.
Proof.
  intros e m'.
  destruct (targetMove_reads_viewport_coordinates quiet (screen 1000 500) e
              (Mouse (Some canvas)) (alias_entry_points canvas) eq_refl)
    as (HX & HY & _).
  fold m' in HX, HY. rewrite HX, HY. split; vm_compute; reflexivity.
Defined.

(** ** Pointer capture *)

(** C2, which the code does not meet in one point.  With listeners
    that only observe, a capture-state-change notification computes the
    boolean by comparing each of the three accessors of the captured
    element with the bound target (one match suffices), calls the
    [lockchange] listeners with that boolean, then the [lock] listeners
    (if true) or the [unlock] listeners (if false) with no payload, and
    returns.  It stores nothing: the fields of the instance are as
    before, and the instance has no field [lockState] or [locked]. *)
Theorem lockChange_dispatches_and_stores_nothing prog d m lc ll lu :
  (forall f q, prog f q = []) ->
  listeners m "lockchange" = Some lc ->
  listeners m "lock" = Some ll ->
  listeners m "unlock" = Some lu ->
  let state :=
    strict_eq (pointerLockElement d) (target_value m)
    || strict_eq (mozPointerLockElement d) (target_value m)
    || strict_eq (webkitPointerLockElement d) (target_value m) in
  exists m', lockChange prog d m = (Return tt, m')
             /\ calls m' = calls m
                            ++ map (fun f => (f, PValue (VBool state))) lc
                            ++ map (fun f => (f, PValue VUndefined))
                                 (if state then ll else lu)
             /\ data m' = data m /\ events m' = events m /\ heap m' = heap m
             /\ ("lockState" ∉ Mouse_fields) /\ ("locked" ∉ Mouse_fields).
Proof.
  intros Hprog Hlc Hll Hlu state. unfold lockChange. cbv zeta.
  change (lock_state d m) with state.
  destruct (emit_observers prog Hprog "lockchange" (PValue (VBool state)) m lc Hlc)
    as (m1 & -> & Hc1 & He1 & Hh1 & _ & Hd1).
  simpl.
  assert (listeners m1 (if state then "lock" else "unlock")
          = Some (if state then ll else lu)) as Hl2.
  { unfold listeners. rewrite He1, Hh1. by destruct state. }
  destruct (emit_observers prog Hprog _ (PValue VUndefined) m1 _ Hl2)
    as (m2 & -> & Hc2 & He2 & Hh2 & _ & Hd2).
  exists m2. split; [done|]. split; [by rewrite Hc2, Hc1, <- app_assoc|].
  split; [congruence|]. split; [congruence|]. split; [congruence|].
  split; apply (bool_decide_unpack _); vm_compute; reflexivity.
Qed.

Lemma lockChange_dispatches_and_stores_nothing_witness :
  exists m', lockChange quiet (captured 1) (lock_listeners canvas) = (Return tt, m')
             /\ calls m' = [ (1, PValue (VBool true)); (2, PValue VUndefined) ]
             /\ data m' = data (lock_listeners canvas)
             /\ ("lockState" ∉ Mouse_fields).
Proof.
  destruct (lockChange_dispatches_and_stores_nothing quiet (captured 1)
              (lock_listeners canvas) [1] [2] [3])
    as (m' & H & Hc & Hd & _ & _ & Hf & _); try reflexivity.
  exists m'. split; [exact H|]. split; [exact Hc|]. split; [exact Hd | exact Hf].
Defined.

(** Whatever the listeners do, no handler of a capture notification
    writes a field. *)
Lemma lockChange_data prog d m : data (snd (lockChange prog d m)) = data m.
Proof. unfold lockChange. by rewrite and_then_emit_data, emit_data. Qed.

(** ** Requests for capture *)

Lemma lock_without_target m :
  target m = None ->
  lock m = (Return tt, warn "MouseError: Target is undefined!" m)
  /\ unlock m = (Return tt, warn "MouseError: Target is undefined!" m).
Proof. intros H. unfold lock, unlock. by rewrite H. Qed.

Lemma lock_with_entry_point t entry :
  first_available
    [ (requestPointerLock t, "requestPointerLock");
      (mozRequestPointerLock t, "mozRequestPointerLock");
      (webkitRequestPointerLock t, "webkitRequestPointerLock") ] = Some entry ->
  lock (Mouse (Some t)) = (Return tt, record_platform entry (Mouse (Some t))).
Proof. intros H. unfold lock. simpl. by rewrite H. Qed.

(** C5, which the code does not meet.  On an instance constructed on a
    target that has none of the three request entry points, the alias
    the constructor wrote is [undefined] and [lockPointer()] throws a
    [TypeError] at the call of it; likewise [unlockPointer()] on a
    target that has none of the three exit entry points.  The instance
    is left as it was. *)
Theorem lock_without_entry_point_throws t :
  (requestPointerLock t || mozRequestPointerLock t || webkitRequestPointerLock t = false ->
   lock (Mouse (Some t)) = (Throw TypeError, Mouse (Some t)))
  /\ (exitPointerLock t || mozExitPointerLock t || webkitExitPointerLock t = false ->
      unlock (Mouse (Some t)) = (Throw TypeError, Mouse (Some t))).
Proof.
  split; intros H.
  - apply orb_false_iff in H as [H H3]. apply orb_false_iff in H as [H1 H2].
    unfold lock. simpl. unfold first_available. simpl. by rewrite H1, H2, H3.
  - apply orb_false_iff in H as [H H3]. apply orb_false_iff in H as [H1 H2].
    unfold unlock. simpl. unfold first_available. simpl. by rewrite H1, H2, H3.
Qed.

Lemma lock_without_entry_point_throws_witness :
  lock (Mouse (Some canvas)) = (Throw TypeError, Mouse (Some canvas))
  /\ unlock (Mouse (Some dom_element)) = (Throw TypeError, Mouse (Some dom_element)).
Proof.
  split.
  - apply (lock_without_entry_point_throws canvas). reflexivity.
  - apply (lock_without_entry_point_throws dom_element). reflexivity.
Defined.

(** ** Unsubscription *)

Lemma indexOf_first f a i :
  indexOf (VFun f) a = Some i ->
  a !! i = Some f /\ forall j, j < i -> a !! j <> Some f.
Proof.
  revert i. induction a as [|g a IH]; intros i; simpl; [done|].
  unfold strict_eq. destruct (bool_decide_reflect (VFun g = VFun f)) as [Heq|Hne].
  - intros [= <-]. injection Heq as ->. split; [done | lia].
  - destruct (indexOf (VFun f) a) as [i'|]; [|done]. simpl. intros [= <-].
    destruct (IH i' eq_refl) as [H1 H2]. split; [done|].
    intros [|j] Hj; simpl; [congruence | apply H2; lia].
Qed.

Lemma indexOf_absent f a : indexOf (VFun f) a = None <-> f ∉ a.
Proof.
  induction a as [|g a IH]; simpl.
  - split; [intros _; apply not_elem_of_nil | done].
  - unfold strict_eq. rewrite not_elem_of_cons.
    destruct (bool_decide_reflect (VFun g = VFun f)) as [Heq|Hne].
    + split; [done | intros [H _]; congruence].
    + destruct (indexOf (VFun f) a); simpl.
      * split; [done | intros [_ H]; by apply IH in H].
      * split; [intros _; split; [congruence | by apply IH] | done].
Qed.

(** Where [off] does what its documentation says: on a name that is an
    own property of the listener table (the fixed names are), and on a
    name [in] does not find. *)
Lemma off_all_own m k r :
  wf m -> events m !! k = Some r ->
  exists m', off k (VStr "all") m = (Return true, m')
             /\ listeners m' k = Some []
             /\ (forall k', k' <> k -> listeners m' k' = listeners m k')
             /\ console m' = console m.
Proof.
  intros Hwf Hr. unfold off. simpl.
  rewrite (own_events_in m k r Hr). unfold events_set. simpl. rewrite Hr.
  eexists. split; [reflexivity|]. unfold listeners. simpl.
  split; [|split; [|done]].
  - rewrite lookup_insert_eq. simpl. unfold fresh.
    by rewrite lookup_app_r, Nat.sub_diag.
  - intros k' Hne. rewrite lookup_insert_ne by done.
    destruct (events m !! k') as [r'|] eqn:Hr'; [|done]. simpl.
    apply lookup_app_l. by eapply wf_refs.
Qed.

Lemma off_callback_own m k r f :
  wf m -> events m !! k = Some r ->
  match indexOf (VFun f) (array m r) with
  | Some i =>
      exists m', off k (VFun f) m = (Return true, m')
                 /\ listeners m' k = Some (delete i (array m r))
                 /\ (forall k', k' <> k -> listeners m' k' = listeners m k')
                 /\ console m' = console m
  | None => off k (VFun f) m = (Return false, warn "MouseError: Callback not found!" m)
  end.
Proof.
  intros Hwf Hr. unfold off. simpl.
  rewrite (own_events_in m k r Hr), (own_events_get m k r Hr).
  destruct (indexOf (VFun f) (array m r)) as [i|]; [|done].
  eexists. split; [reflexivity|]. unfold listeners. simpl. rewrite Hr. simpl.
  pose proof (wf_refs m Hwf k r Hr) as Hlt.
  apply lookup_lt_is_Some_2 in Hlt as [a Ha].
  split; [|split; [|done]].
  - rewrite list_lookup_alter_eq. unfold array. by rewrite Ha.
  - intros k' Hne. destruct (events m !! k') as [r'|] eqn:Hr'; [|done]. simpl.
    apply list_lookup_alter_ne. intros ->. apply Hne. by eapply wf_inj.
Qed.

Lemma off_unknown m k cb :
  events_in m k = false ->
  off k cb m = (Return false, warn "MouseError: Event not found!" m).
Proof. intros H. unfold off. rewrite H. by destruct (strict_eq cb (VStr "all")). Qed.

Lemma inherited_name_not_fixed k :
  mem_string k object_prototype_keys = true -> mem_string k event_names = false.
Proof.
  rewrite mem_string_spec. unfold object_prototype_keys.
  rewrite !elem_of_cons, elem_of_nil. intros H.
  repeat (destruct H as [->|H]; [reflexivity|]). done.
Qed.

(** C8, which the code does not meet.  The test [event in self.events]
    also finds the names the listener table inherits from
    [Object.prototype], none of which is a fixed event name.  For such
    a name, on an instance whose table has it neither as an own
    property nor a changed prototype, unsubscribing a callback throws a
    [TypeError] (the inherited value has no [indexOf]) and leaves the
    instance as it was, and unsubscribing ["all"] returns [true]. *)
Theorem off_inherited_name m k f :
  events m !! k = None ->
  events_proto m = None ->
  mem_string k object_prototype_keys = true ->
  mem_string k event_names = false
  /\ off k (VFun f) m = (Throw TypeError, m)
  /\ fst (off k (VStr "all") m) = Return true.
Proof.
  intros Hown Hproto Hk. split; [by apply inherited_name_not_fixed|].
  unfold off. simpl.
  assert (events_in m k = true) as -> by (unfold events_in; by rewrite Hown, Hk).
  split; [|done].
  unfold events_get. rewrite Hown, Hproto, Hk. unfold object_prototype_get.
  by destruct (String.eqb k "__proto__").
Qed.

Lemma off_inherited_name_witness :
  mem_string "toString" event_names = false
  /\ off "toString" (VFun 1) (Mouse None) = (Throw TypeError, Mouse None)
  /\ fst (off "toString" (VStr "all") (Mouse None)) = Return true.
Proof.
  apply (off_inherited_name (Mouse None) "toString" 1); reflexivity.
Defined.

(** ** Queries *)

(** C10, as the code has it.  [codeOf] throws a [TypeError] on every
    primitive argument that is not a string ([undefined], [null], a
    boolean, a number such as 0), and returns on every string.
    [isPressed] returns on every argument; for a string of ASCII
    characters that is not a button name in some letter case it
    returns [false]; for a number, in the table or not, it returns
    whether that number is in [buttons], with no diagnostic; for any
    other non-string it returns [false]; and, strings beyond ASCII
    apart, it writes its diagnostic exactly when the identifier
    resolves to [undefined] or [null]. *)
Theorem codeOf_pressed_cases (v : value) (s : string) (n : Z) (m : instance) :
  primitive_non_string v = true ->
  ascii_only s = true ->
  recognized (VStr s) = false ->
  codeOf v = Throw TypeError
  /\ (forall s', exists w, codeOf (VStr s') = Return w)
  /\ fst (pressed (VStr s) m) = false
  /\ pressed (VNum n) m = (bool_decide (n ∈ buttons m), m)
  /\ (forall x, is_string x = false ->
        fst (pressed x m) = match x with
                            | VNum k => bool_decide (k ∈ buttons m)
                            | _ => false
                            end)
  /\ (forall x, lowered_as_built_in x = true ->
        snd (pressed x m)
        = if strict_eq (resolve_button x) VUndefined
             || strict_eq (resolve_button x) VNull
          then warn "MouseError: Invalid button!" m
          else m).
Proof.
  intros Hv _ Hs. split; [by destruct v|]. split; [by eexists|].
  split; [|split; [done|split]].
  - unfold pressed. simpl. unfold buttonCodes_get.
    destruct (find _ buttonCodes) as [kv|] eqn:Hfind.
    + apply find_some in Hfind as [Hin Heq]. apply String.eqb_eq in Heq.
      change (mem_string (toLowerCase s) (map fst buttonCodes) = false) in Hs.
      apply not_true_iff_false in Hs. exfalso. apply Hs.
      apply mem_string_spec. rewrite <- Heq.
      apply list_elem_of_fmap. exists kv. split; [done|].
      by apply list_elem_of_In.
    + destruct (mem_string _ object_prototype_keys); [|done].
      unfold object_prototype_get. by destruct (String.eqb _ "__proto__").
  - intros x Hx. destruct x; try done.
  - intros x _. unfold pressed.
    by destruct (strict_eq (resolve_button x) VUndefined
                 || strict_eq (resolve_button x) VNull).
Qed.

Lemma codeOf_pressed_cases_witness :
  let m := replay quiet [Mousedown (click 7)] (Mouse None) in
  codeOf (VNum 0) = Throw TypeError
  /\ (exists w, codeOf (VStr "Left") = Return w)
  /\ fst (pressed (VStr "wheel") m) = false
  /\ pressed (VNum 7) m = (true, m)
  /\ snd (pressed (VStr "wheel") m) = warn "MouseError: Invalid button!" m.
Proof.
  intros m.
  destruct (codeOf_pressed_cases (VNum 0) "wheel" 7 m) as (H1 & H2 & H3 & H4 & _ & H6);
    [reflexivity | reflexivity | reflexivity |].
  split; [exact H1|]. split; [exact (H2 "Left")|]. split; [exact H3|].
  split; [rewrite H4; reflexivity|].
  rewrite (H6 (VStr "wheel")); reflexivity.
Defined.

(** C10, as stated, fails: after a button-down notification with the
    code 7, which the table does not know, [isPressed(7)] returns
    [true]. *)
Lemma pressed_unrecognized_held :
  recognized (VNum 7) = false
  /\ fst (pressed (VNum 7) (replay quiet [Mousedown (click 7)] (Mouse None))) = true.
Proof. split; reflexivity. Qed.

(** * Further properties *)

(** ** Subscription on the names the table owns *)

Lemma listeners_own m k r :
  wf m -> events m !! k = Some r -> listeners m k = Some (array m r).
Proof.
  intros Hwf Hr.
  destruct (lookup_lt_is_Some_2 (heap m) r) as [a Ha]; [by eapply wf_refs|].
  unfold listeners, array. rewrite Hr.
  change (heap m !! r = Some (default [] (heap m !! r))). by rewrite Ha.
Qed.

Lemma fixed_listeners m k :
  wf m -> mem_string k event_names = true ->
  exists r, events m !! k = Some r /\ listeners m k = Some (array m r).
Proof.
  intros Hwf Hk. destruct (wf_names m Hwf k Hk) as [r Hr].
  exists r. split; [done | by apply listeners_own].
Qed.

Lemma listeners_events m k l : listeners m k = Some l -> exists r, events m !! k = Some r /\ array m r = l.
Proof.
  unfold listeners, array. destruct (events m !! k) as [r|]; [|done]. simpl.
  intros H. exists r. by rewrite H.
Qed.

Lemma on_own m k l cb :
  wf m -> listeners m k = Some l ->
  exists m', on k cb m = (Return true, m')
             /\ listeners m' k = Some (l ++ [cb])
             /\ (forall k', k' <> k -> listeners m' k' = listeners m k')
             /\ events m' = events m
             /\ console m' = console m /\ calls m' = calls m
             /\ data m' = data m /\ wf m'.
Proof.
  intros Hwf Hl. pose proof Hl as Hl0. unfold listeners in Hl.
  destruct (events m !! k) as [r|] eqn:Hr; [|done]. simpl in Hl.
  unfold on. rewrite (own_events_in m k r Hr), (own_events_get m k r Hr).
  eexists. split; [reflexivity|]. unfold listeners. simpl. rewrite Hr. simpl.
  split; [by rewrite list_lookup_alter_eq, Hl|].
  split; [|repeat (split; [done|]); same_shape m].
  intros k' Hne. destruct (events m !! k') as [r'|] eqn:Hr'; [|done]. simpl.
  apply list_lookup_alter_ne. intros ->. apply Hne. by eapply wf_inj.
Qed.

(** X1. On an instance that satisfies the invariant, subscribing a
    callback to one of the seventeen fixed event names returns [true],
    appends the callback at the end of that name's listeners (a
    callback already there is listed again), leaves the listeners of
    every other name as they were, writes no diagnostic and touches no
    coordinate, button or target. *)
Theorem on_fixed_name_appends k cb m :
  wf m -> mem_string k event_names = true ->
  exists l m', listeners m k = Some l
               /\ on k cb m = (Return true, m')
               /\ listeners m' k = Some (l ++ [cb])
               /\ (forall k', k' <> k -> listeners m' k' = listeners m k')
               /\ console m' = console m /\ data m' = data m.
Proof.
  intros Hwf Hk. destruct (fixed_listeners m k Hwf Hk) as (r & Hr & Hl).
  destruct (on_own m k _ cb Hwf Hl) as (m' & Hon & Hl' & Hothers & _ & Hc & _ & Hd & _).
  exists (array m r), m'. auto 10.
Qed.

Lemma on_fixed_name_appends_witness :
  exists l m', listeners two_listeners "move" = Some l
               /\ on "move" 8 two_listeners = (Return true, m')
               /\ listeners m' "move" = Some (l ++ [8])
               /\ (forall k', k' <> "move" -> listeners m' k' = listeners two_listeners k')
               /\ console m' = console two_listeners /\ data m' = data two_listeners.
Proof.
  apply (on_fixed_name_appends "move" 8 two_listeners).
  - unfold two_listeners. auto with wf.
  - reflexivity.
Defined.

(** The table under its original prototype *)

Lemma tidy_Mouse t : tidy (Mouse t).
Proof.
  intros _ k [r H]. left. apply Mouse_events_lookup in H.
  apply mem_string_spec. by eapply list_elem_of_lookup_2.
Qed.

Lemma tidy_same m m' :
  events m' = events m -> events_proto m' = events_proto m -> tidy m -> tidy m'.
Proof. unfold tidy. intros -> ->. auto. Qed.

Ltac same_table m :=
  apply (tidy_same m); [reflexivity | reflexivity | assumption].

Lemma tidy_on event cb m : tidy m -> tidy (snd (on event cb m)).
Proof.
  intros H. unfold on. destruct (events_in m event); [|same_table m].
  destruct (events_get m event); first [exact H | same_table m].
Qed.

Lemma tidy_off event cb m : tidy m -> tidy (snd (off event cb m)).
Proof.
  intros H. unfold off. destruct (strict_eq cb (VStr "all")).
  - destruct (events_in m event) eqn:Hin; [|same_table m].
    cbn [snd]. unfold events_set. cbn [events alloc set_heap].
    destruct (events m !! event) eqn:Hown.
    + intros Hp k. cbn [events set_events]. destruct (decide (event = k)) as [Heq|Hne].
      * subst k. intros _. apply H; [exact Hp | rewrite Hown; eauto].
      * rewrite lookup_insert_ne by done. by apply H.
    + destruct (String.eqb event "__proto__"); [intros Hp; discriminate Hp|].
      intros Hp k. cbn [events set_events]. destruct (decide (event = k)) as [Heq|Hne].
      * subst k. intros _. right. unfold events_in in Hin.
        change (events_proto m = None) in Hp.
        rewrite Hown, Hp in Hin. by rewrite orb_false_r in Hin.
      * rewrite lookup_insert_ne by done. by apply H.
  - destruct (events_in m event); [|same_table m].
    destruct (events_get m event); try exact H.
    destruct (indexOf cb (array m r)); same_table m.
Qed.

Lemma tidy_pressed b m : tidy m -> tidy (snd (pressed b m)).
Proof. intros H. unfold pressed. simpl. destruct (_ || _); [same_table m | done]. Qed.

Lemma tidy_lock m : tidy m -> tidy (snd (lock m)).
Proof.
  intros H. unfold lock. destruct (target m) as [t|]; [|same_table m].
  destruct (requestLock t); [same_table m | done].
Qed.

Lemma tidy_unlock m : tidy m -> tidy (snd (unlock m)).
Proof.
  intros H. unfold unlock. destruct (target m) as [t|]; [|same_table m].
  destruct (requestUnlock t); [same_table m | done].
Qed.

Lemma tidy_run_action a m : tidy m -> tidy (snd (run_action a m)).
Proof.
  intros H. destruct a; unfold run_action; rewrite ?discard_snd; cbn [snd];
    auto using tidy_on, tidy_off, tidy_pressed, tidy_lock, tidy_unlock.
Qed.

Lemma tidy_run_actions l m : tidy m -> tidy (snd (run_actions l m)).
Proof.
  revert m. induction l as [|a l IH]; intros m H; simpl; [done|].
  pose proof (tidy_run_action a m H) as H'.
  destruct (run_action a m) as [[?|?] m']; simpl in *; [by apply IH | done].
Qed.

Lemma tidy_invoke prog f p m : tidy m -> tidy (snd (invoke prog f p m)).
Proof. intros H. unfold invoke. apply tidy_run_actions. same_table m. Qed.

Lemma tidy_emit_from prog r p k n m : tidy m -> tidy (snd (emit_from prog r p k n m)).
Proof.
  revert k m. induction n as [|n IH]; intros k m H; simpl; [done|].
  destruct (array m r !! k) as [f|]; [|by apply IH].
  pose proof (tidy_invoke prog f p m H) as H'.
  destruct (invoke prog f p m) as [[?|?] m']; simpl in *; [by apply IH | done].
Qed.

Lemma tidy_emit prog event p m : tidy m -> tidy (snd (emit prog event p m)).
Proof.
  intros H. unfold emit. destruct (events_get m event); try done.
  by apply tidy_emit_from.
Qed.

Lemma tidy_and_then_emit prog c event p :
  tidy (snd c) -> tidy (snd (and_then c (fun _ : unit => emit prog event p))).
Proof. destruct c as [[?|?] m]; simpl; [apply tidy_emit | done]. Qed.

Lemma tidy_perform prog op m : tidy m -> tidy (perform prog op m).
Proof.
  intros H. destruct op as [e cb|e cb| | |b|[e|e]|w e|w e|d|];
    unfold perform, notify;
    auto using tidy_on, tidy_off, tidy_pressed, tidy_lock, tidy_unlock.
  - unfold docDown. apply tidy_and_then_emit, tidy_emit. same_table m.
  - unfold docUp. apply tidy_and_then_emit, tidy_emit. same_table m.
  - unfold docMove. apply tidy_emit. same_table m.
  - unfold targetMove. destruct (target m) as [t|]; [|same_table m].
    unfold docMove. apply tidy_emit. same_table m.
  - unfold lockChange. apply tidy_and_then_emit, tidy_emit, H.
  - unfold lockError. apply tidy_emit, H.
Qed.

Lemma reachable_tidy prog m : reachable prog m -> tidy m.
Proof. induction 1; [apply tidy_Mouse | by apply tidy_perform]. Qed.

(** Under the original prototype the table has exactly the fixed names
    and the names of [Object.prototype]. *)
Lemma tidy_events_in m k :
  tidy m -> events_proto m = None ->
  mem_string k event_names = false ->
  mem_string k object_prototype_keys = false ->
  events m !! k = None /\ events_in m k = false.
Proof.
  intros H Hp Hn Ho.
  assert (events m !! k = None) as Hown.
  { destruct (events m !! k) as [r|] eqn:E; [|done].
    destruct (H Hp k) as [H'|H']; [rewrite E; eauto | congruence..]. }
  split; [done|]. unfold events_in. by rewrite Hown, Ho, Hp.
Qed.

(** X2. Names that are no events are rejected.  Take an instance
    reached from a new one by any calls and notifications, whatever
    the listeners call or throw, and a name that is neither a fixed
    event name nor a name of [Object.prototype].  If the listener table
    still has the prototype it was created with (only
    [off("__proto__", "all")] replaces it), then [on] and [off], with a
    callback or with ["all"], return [false], write
    ["MouseError: Event not found!"] and change nothing else, and the
    name has no listener list: so for the empty name, ["click"],
    ["007"], ["5"], ["length"] and ["push"].  If the prototype was
    replaced, the same holds of every name that is neither spelled in
    digits only, nor ["length"], nor a name of [Array.prototype]. *)
Theorem unknown_name_rejected prog m k cb v :
  reachable prog m ->
  mem_string k event_names = false ->
  mem_string k object_prototype_keys = false ->
  events_proto m = None \/ inheritable k = false ->
  on k cb m = (Return false, warn "MouseError: Event not found!" m)
  /\ off k v m = (Return false, warn "MouseError: Event not found!" m)
  /\ listeners m k = None.
Proof.
  intros Hr Hn Ho Hcase.
  assert (events m !! k = None /\ events_in m k = false) as [Hown Hin].
  { destruct Hcase as [Hp|Hi].
    - by apply tidy_events_in; [apply (reachable_tidy prog)|..].
    - pose proof (reachable_wf prog m Hr) as Hwf.
      split; [by apply foreign_own | by apply events_in_foreign]. }
  split; [|split].
  - unfold on. by rewrite Hin.
  - by apply off_unknown.
  - unfold listeners. by rewrite Hown.
Qed.

Lemma unknown_name_rejected_witness :
  on "007" 1 used = (Return false, warn "MouseError: Event not found!" used)
  /\ off "007" (VStr "all") used
     = (Return false, warn "MouseError: Event not found!" used)
  /\ listeners used "007" = None.
Proof.
  apply (unknown_name_rejected quiet used "007" 1 (VStr "all")).
  - change used
      with (perform quiet (Host_button (Mousedown (click 0)))
              (perform quiet (Call_off "toString" (VStr "all"))
                 (perform quiet (Call_on "move" 7) (Mouse None)))).
    repeat constructor.
  - reflexivity.
  - reflexivity.
  - left. vm_compute. reflexivity.
Defined.

(** X3. The test [event in self.events] of [on] also finds the names
    inherited from [Object.prototype], none of which is a fixed event
    name: subscribing to such a name, on an instance whose table has it
    neither as an own property nor a changed prototype, throws a
    [TypeError] at the call of [push] on the inherited value, and
    leaves the instance as it was. *)
Theorem on_inherited_name_throws m k cb :
  events m !! k = None ->
  events_proto m = None ->
  mem_string k object_prototype_keys = true ->
  mem_string k event_names = false
  /\ on k cb m = (Throw TypeError, m).
Proof.
  intros Hown Hproto Hk. split; [by apply inherited_name_not_fixed|].
  unfold on.
  assert (events_in m k = true) as -> by (unfold events_in; by rewrite Hown, Hk).
  unfold events_get. rewrite Hown, Hproto, Hk. unfold object_prototype_get.
  by destruct (String.eqb k "__proto__").
Qed.

Lemma on_inherited_name_throws_witness :
  mem_string "constructor" event_names = false
  /\ on "constructor" 1 (Mouse None) = (Throw TypeError, Mouse None).
Proof.
  apply (on_inherited_name_throws (Mouse None) "constructor" 1); reflexivity.
Defined.

(** ** Unsubscription on the names the table owns *)

Lemma indexOf_middle f l1 l2 :
  f ∉ l1 -> indexOf (VFun f) (l1 ++ f :: l2) = Some (length l1).
Proof.
  induction l1 as [|g l1 IH]; simpl; unfold strict_eq.
  - intros _. by rewrite bool_decide_eq_true_2.
  - rewrite not_elem_of_cons. intros [Hne Hl1].
    rewrite bool_decide_eq_false_2 by congruence. by rewrite IH.
Qed.

Lemma off_own m k l f :
  wf m -> listeners m k = Some l ->
  match indexOf (VFun f) l with
  | Some i =>
      exists m', off k (VFun f) m = (Return true, m')
                 /\ listeners m' k = Some (delete i l)
                 /\ (forall k', k' <> k -> listeners m' k' = listeners m k')
                 /\ console m' = console m /\ data m' = data m
  | None => off k (VFun f) m = (Return false, warn "MouseError: Callback not found!" m)
  end.
Proof.
  intros Hwf Hl. destruct (listeners_events m k l Hl) as (r & Hr & <-).
  pose proof (off_callback_own m k r f Hwf Hr) as H.
  destruct (indexOf (VFun f) (array m r)) as [i|]; [|done].
  destruct H as (m' & Hoff & Hk & Hothers & Hc).
  exists m'. repeat (split; [done|]).
  pose proof (off_data k (VFun f) m) as Hd. by rewrite Hoff in Hd.
Qed.

(** X4. [off] with a callback removes its first occurrence and no
    other: on an instance that satisfies the invariant, if the
    listeners of a name are [l1 ++ f :: l2] with [f] not in [l1], then
    [off(name, f)] returns [true] and leaves [l1 ++ l2], the listeners
    of every other name being as they were and no diagnostic written;
    if [f] is not among the listeners, it returns [false], writes
    ["MouseError: Callback not found!"] and changes nothing else. *)
Theorem off_removes_first_occurrence m k l f :
  wf m -> listeners m k = Some l ->
  (forall l1 l2, l = l1 ++ f :: l2 -> f ∉ l1 ->
     exists m', off k (VFun f) m = (Return true, m')
                /\ listeners m' k = Some (l1 ++ l2)
                /\ (forall k', k' <> k -> listeners m' k' = listeners m k')
                /\ console m' = console m)
  /\ (f ∉ l ->
      off k (VFun f) m = (Return false, warn "MouseError: Callback not found!" m)).
Proof.
  intros Hwf Hl. pose proof (off_own m k l f Hwf Hl) as H. split.
  - intros l1 l2 -> Hf. rewrite (indexOf_middle f l1 l2 Hf) in H.
    destruct H as (m' & Hoff & Hk & Hothers & Hc & _).
    exists m'. rewrite delete_middle in Hk. auto.
  - intros Hf. apply indexOf_absent in Hf. by rewrite Hf in H.
Qed.

Lemma off_removes_first_occurrence_witness :
  (exists m', off "move" (VFun 7) two_listeners = (Return true, m')
              /\ listeners m' "move" = Some [8])
  /\ off "move" (VFun 9) two_listeners
     = (Return false, warn "MouseError: Callback not found!" two_listeners).
Proof.
  assert (wf two_listeners) as Hwf by (unfold two_listeners; auto with wf).
  destruct (off_removes_first_occurrence two_listeners "move" [8; 7] 7 Hwf eq_refl)
    as [H1 _].
  destruct (off_removes_first_occurrence two_listeners "move" [8; 7] 9 Hwf eq_refl)
    as [_ H2].
  split.
  - destruct (H1 [8] [] eq_refl) as (m' & Hoff & Hk & _).
    + rewrite elem_of_cons, elem_of_nil. intros [H|H]; [discriminate H | done].
    + exists m'. split; [exact Hoff | exact Hk].
  - apply H2. rewrite !elem_of_cons, elem_of_nil.
    intros [H|[H|H]]; [discriminate H | discriminate H | done].
Defined.

(** X5. Subscribing a callback and then unsubscribing it keeps the
    listeners of the name the same up to order, hence as many: on an
    instance that satisfies the invariant, [on(name, f)] followed by
    [off(name, f)] on a fixed name both return [true] and leave a
    permutation of the listeners there were; when [f] was not yet among
    them, exactly the list there was.  (When [f] was, it is the earlier
    occurrence that goes and the new one stays at the end.) *)
Theorem on_then_off_restores k f m :
  wf m -> mem_string k event_names = true ->
  exists l m1 m2 l',
    listeners m k = Some l
    /\ on k f m = (Return true, m1)
    /\ off k (VFun f) m1 = (Return true, m2)
    /\ listeners m2 k = Some l'
    /\ l' ≡ₚ l /\ length l' = length l
    /\ (f ∉ l -> l' = l).
Proof.
  intros Hwf Hk. destruct (fixed_listeners m k Hwf Hk) as (r & Hr & Hl).
  set (l := array m r) in *.
  destruct (on_own m k l f Hwf Hl) as (m1 & Hon & Hl1 & _ & _ & _ & _ & _ & Hwf1).
  pose proof (off_own m1 k (l ++ [f]) f Hwf1 Hl1) as Hoff.
  destruct (indexOf (VFun f) (l ++ [f])) as [i|] eqn:Hi.
  - destruct Hoff as (m2 & Hoff & Hl2 & _).
    destruct (indexOf_first f (l ++ [f]) i Hi) as [Hat Hbefore].
    assert (delete i (l ++ [f]) ≡ₚ l) as Hperm.
    { apply (Permutation_cons_inv (a := f)).
      rewrite <- (delete_Permutation _ _ _ Hat). by rewrite Permutation_app_comm. }
    exists l, m1, m2, (delete i (l ++ [f])).
    repeat (split; [done|]). split; [by rewrite Hperm|].
    intros Hf. assert (i = length l) as ->.
    { pose proof (lookup_lt_Some _ _ _ Hat) as Hlt. rewrite length_app in Hlt.
      simpl in Hlt. destruct (decide (i < length l)) as [Hlt'|]; [|lia].
      rewrite lookup_app_l in Hat by done. exfalso. apply Hf.
      by eapply list_elem_of_lookup_2. }
    rewrite (delete_middle l [] f). apply app_nil_r.
  - apply indexOf_absent in Hi. exfalso. apply Hi. apply elem_of_app. right.
    apply list_elem_of_singleton. done.
Qed.

Lemma on_then_off_restores_witness :
  exists l m1 m2 l',
    listeners two_listeners "move" = Some l
    /\ on "move" 7 two_listeners = (Return true, m1)
    /\ off "move" (VFun 7) m1 = (Return true, m2)
    /\ listeners m2 "move" = Some l'
    /\ l' ≡ₚ l /\ length l' = length l
    /\ (7 ∉ l -> l' = l).
Proof.
  apply (on_then_off_restores "move" 7 two_listeners).
  - unfold two_listeners. auto with wf.
  - reflexivity.
Defined.

(** X6. Unsubscribing ["all"] empties the listeners of a fixed name
    whatever they were, and a dispatch of that name right after calls
    nothing: on an instance that satisfies the invariant,
    [off(name, "all")] returns [true], the name's listeners are then
    the empty list, the listeners of every other name are as they were,
    and [emit(name, params)] returns without calling a listener or
    changing the instance, whatever the listeners' bodies. *)
Theorem off_all_then_emit_calls_nothing k m :
  wf m -> mem_string k event_names = true ->
  exists m1, off k (VStr "all") m = (Return true, m1)
             /\ listeners m1 k = Some []
             /\ (forall k', k' <> k -> listeners m1 k' = listeners m k')
             /\ forall prog p, emit prog k p m1 = (Return tt, m1).
Proof.
  intros Hwf Hk. destruct (wf_names m Hwf k Hk) as [r Hr].
  destruct (off_all_own m k r Hwf Hr) as (m1 & Hoff & Hl1 & Hothers & _).
  exists m1. repeat (split; [done|]). intros prog p.
  destruct (listeners_events m1 k [] Hl1) as (r1 & Hr1 & Harr).
  unfold emit. by rewrite (own_events_get m1 k r1 Hr1), Harr.
Qed.

Lemma off_all_then_emit_calls_nothing_witness :
  exists m1, off "move" (VStr "all") two_listeners = (Return true, m1)
             /\ listeners m1 "move" = Some []
             /\ (forall k', k' <> "move" -> listeners m1 k' = listeners two_listeners k')
             /\ forall prog p, emit prog "move" p m1 = (Return tt, m1).
Proof.
  apply (off_all_then_emit_calls_nothing "move" two_listeners).
  - unfold two_listeners. auto with wf.
  - reflexivity.
Defined.

(** ** Dispatch *)

Lemma emit_from_until_throw prog r p f l2 rest :
  prog f p = Raise :: rest ->
  forall l1 pre n m,
    array m r = pre ++ l1 ++ f :: l2 ->
    length l1 < n ->
    (forall g, g ∈ l1 -> prog g p = []) ->
    exists m', emit_from prog r p (length pre) n m = (Throw Raised, m')
               /\ calls m' = calls m ++ map (fun g => (g, p)) (l1 ++ [f])
               /\ events m' = events m /\ heap m' = heap m
               /\ console m' = console m /\ data m' = data m.
Proof.
  intros Hf. induction l1 as [|g l1 IH]; intros pre n m Harr Hn Hquiet;
    (destruct n as [|n]; [simpl in Hn; lia|]); simpl emit_from.
  - assert (array m r !! length pre = Some f) as ->.
    { rewrite Harr. simpl. by apply list_lookup_middle. }
    unfold invoke. rewrite Hf. simpl. eexists. split; [reflexivity|]. auto 10.
  - assert (array m r !! length pre = Some g) as ->.
    { rewrite Harr. simpl. by apply list_lookup_middle. }
    unfold invoke. rewrite (Hquiet g) by apply list_elem_of_here. simpl run_actions.
    destruct (IH (pre ++ [g]) n (record_call g p m)) as (m' & He & Hc & Hrest).
    + change (array (record_call g p m) r) with (array m r).
      by rewrite Harr, <- app_assoc.
    + simpl in Hn. lia.
    + intros g' Hg'. apply Hquiet. by apply list_elem_of_further.
    + rewrite length_app in He. simpl in He. rewrite Nat.add_1_r in He.
      exists m'. split; [exact He|]. split; [|exact Hrest].
      rewrite Hc. simpl. by rewrite <- app_assoc.
Qed.

Lemma emit_stops_at_first prog event p m f l rest :
  listeners m event = Some (f :: l) ->
  prog f p = Raise :: rest ->
  exists m', emit prog event p m = (Throw Raised, m')
             /\ calls m' = calls m ++ [ (f, p) ]
             /\ data m' = data m.
Proof.
  intros Hl Hf. destruct (listeners_events m event _ Hl) as (r & Hr & Harr).
  unfold emit. rewrite (own_events_get m event r Hr).
  destruct (emit_from_until_throw prog r p f l rest Hf [] [] (length (array m r)) m)
    as (m' & He & Hc & _ & _ & _ & Hd).
  - done.
  - rewrite Harr. simpl. lia.
  - intros g Hg. by apply elem_of_nil in Hg.
  - exists m'. auto.
Qed.

(** X7. A listener that throws ends the dispatch: if the listeners of
    the event are [l1 ++ f :: l2], the listeners of [l1] return without
    touching the instance and [f] throws, then [emit] calls the
    listeners of [l1] and [f], in order, and throws what [f] threw; no
    listener of [l2] is called. *)
Theorem emit_stops_at_throwing_listener prog event p m l1 f l2 rest :
  listeners m event = Some (l1 ++ f :: l2) ->
  (forall g, g ∈ l1 -> prog g p = []) ->
  prog f p = Raise :: rest ->
  exists m', emit prog event p m = (Throw Raised, m')
             /\ calls m' = calls m ++ map (fun g => (g, p)) (l1 ++ [f])
             /\ events m' = events m /\ heap m' = heap m /\ data m' = data m.
Proof.
  intros Hl Hquiet Hf. destruct (listeners_events m event _ Hl) as (r & Hr & Harr).
  unfold emit. rewrite (own_events_get m event r Hr).
  destruct (emit_from_until_throw prog r p f l2 rest Hf l1 [] (length (array m r)) m)
    as (m' & He & Hc & Hev & Hh & _ & Hd); [done | | done |].
  - rewrite Harr, length_app. simpl. lia.
  - exists m'. auto 10.
Qed.

Lemma emit_stops_at_throwing_listener_witness :
  exists m', emit grumpy "lock" (PValue VUndefined)
               (subscribe_all "lock" [4; 7; 5] (Mouse None)) = (Throw Raised, m')
             /\ calls m' = [ (4, PValue VUndefined); (7, PValue VUndefined) ].
Proof.
  destruct (emit_stops_at_throwing_listener grumpy "lock" (PValue VUndefined)
              (subscribe_all "lock" [4; 7; 5] (Mouse None)) [4] 7 [5] [])
    as (m' & He & Hc & _).
  - vm_compute. reflexivity.
  - intros g Hg. apply list_elem_of_singleton in Hg. by subst.
  - reflexivity.
  - exists m'. split; [exact He | exact Hc].
Defined.

Lemma subscribe_all_listeners k fs : forall m l,
  wf m -> listeners m k = Some l ->
  listeners (subscribe_all k fs m) k = Some (l ++ fs)
  /\ (forall k', k' <> k -> listeners (subscribe_all k fs m) k' = listeners m k')
  /\ calls (subscribe_all k fs m) = calls m
  /\ data (subscribe_all k fs m) = data m
  /\ wf (subscribe_all k fs m).
Proof.
  induction fs as [|f fs IH]; intros m l Hwf Hl; simpl.
  - by rewrite app_nil_r.
  - destruct (on_own m k l f Hwf Hl) as (m1 & Hon & Hl1 & Hothers & _ & _ & Hc & Hd & Hwf1).
    rewrite Hon. simpl.
    destruct (IH m1 (l ++ [f]) Hwf1 Hl1) as (H1 & H2 & H3 & H4 & H5).
    rewrite <- app_assoc in H1. simpl in H1.
    split; [done|]. split; [|split; [congruence|split; [congruence|done]]].
    intros k' Hne. rewrite H2 by done. by apply Hothers.
Qed.

(** X8. Registration order is invocation order, and a callback
    subscribed several times is called as many times: on an instance
    that satisfies the invariant, after subscribing the callbacks [fs],
    one by one, to a fixed event name whose listeners were [l], a
    dispatch of that name to listeners that only observe calls exactly
    [l ++ fs], each with the payload, in that order, and returns. *)
Theorem subscription_order_is_call_order prog k fs p m :
  wf m -> mem_string k event_names = true ->
  (forall f q, prog f q = []) ->
  exists l m', listeners m k = Some l
               /\ emit prog k p (subscribe_all k fs m) = (Return tt, m')
               /\ calls m' = calls m ++ map (fun f => (f, p)) (l ++ fs).
Proof.
  intros Hwf Hk Hprog. destruct (fixed_listeners m k Hwf Hk) as (r & Hr & Hl).
  destruct (subscribe_all_listeners k fs m _ Hwf Hl) as (Hl' & _ & Hc & _).
  destruct (emit_observers prog Hprog k p _ _ Hl') as (m' & He & Hc' & _).
  exists (array m r), m'. split; [done|]. split; [done|]. by rewrite Hc', Hc.
Qed.

Lemma subscription_order_is_call_order_witness :
  exists l m', listeners two_listeners "move" = Some l
               /\ emit quiet "move" (PValue VNull)
                    (subscribe_all "move" [7; 7; 3] two_listeners) = (Return tt, m')
               /\ calls m' = calls two_listeners
                              ++ map (fun f => (f, PValue VNull)) (l ++ [7; 7; 3]).
Proof.
  apply (subscription_order_is_call_order quiet "move" [7; 7; 3] (PValue VNull)
           two_listeners).
  - unfold two_listeners. auto with wf.
  - reflexivity.
  - reflexivity.
Defined.

(** ** Button notifications *)

Lemma known_button_names c :
  (0 <= c <= 4)%Z ->
  exists name, nameOf (VNum c) = Some name
               /\ mem_string (name ++ "down") event_names = true
               /\ mem_string (name ++ "up") event_names = true.
Proof.
  intros Hc. assert (c = 0 \/ c = 1 \/ c = 2 \/ c = 3 \/ c = 4)%Z as H by lia.
  destruct H as [->|[->|[->|[->| ->]]]]; eexists; repeat split; reflexivity.
Qed.

Lemma docUp_named_button prog e m name l1 l2 :
  (forall f q, prog f q = []) ->
  nameOf (VNum (button e)) = Some name ->
  listeners m (name ++ "up") = Some l1 ->
  listeners m "anyup" = Some l2 ->
  exists m', docUp prog e m = (Return tt, m')
             /\ buttons m' = buttons m ∖ {[ button e ]}
             /\ calls m' = calls m ++ map (fun f => (f, PEvent e)) (l1 ++ l2).
Proof.
  intros Hprog Hname Hl1 Hl2. unfold docUp. rewrite Hname. simpl template.
  destruct (emit_observers prog Hprog (name ++ "up") (PEvent e)
              (set_buttons (fun s => s ∖ {[ button e ]}) m) l1 Hl1)
    as (m1 & -> & Hc1 & He1 & Hh1 & _ & Hd1). simpl.
  assert (listeners m1 "anyup" = Some l2) as Hl2'
    by (unfold listeners; by rewrite He1, Hh1).
  destruct (emit_observers prog Hprog "anyup" (PEvent e) m1 l2 Hl2')
    as (m2 & -> & Hc2 & _ & _ & _ & Hd2).
  exists m2. split; [done|]. split.
  - apply data_buttons in Hd1, Hd2. by rewrite Hd2, Hd1.
  - by rewrite Hc2, Hc1, map_app, app_assoc.
Qed.

(** X9. For the five buttons the table names, a button-down
    notification never fails by itself: on an instance that satisfies
    the invariant, with listeners that only observe and a code of 0..4,
    [docDown] adds the code to [buttons], calls the listeners of the
    button's own event ([leftdown], ...) and then those of [anydown],
    each once with the raw notification, and returns. *)
Theorem docDown_known_button prog e m :
  wf m -> (forall f q, prog f q = []) -> (0 <= button e <= 4)%Z ->
  exists name l1 l2 m',
    nameOf (VNum (button e)) = Some name
    /\ listeners m (name ++ "down") = Some l1
    /\ listeners m "anydown" = Some l2
    /\ docDown prog e m = (Return tt, m')
    /\ buttons m' = {[ button e ]} ∪ buttons m
    /\ calls m' = calls m ++ map (fun f => (f, PEvent e)) (l1 ++ l2).
Proof.
  intros Hwf Hprog Hc. destruct (known_button_names _ Hc) as (name & Hname & Hd & _).
  destruct (fixed_listeners m _ Hwf Hd) as (r1 & _ & Hl1).
  destruct (fixed_listeners m "anydown" Hwf eq_refl) as (r2 & _ & Hl2).
  destruct (docDown_named_button prog e m name _ _ Hprog Hname Hl1 Hl2)
    as (m' & H1 & H2 & H3).
  exists name, (array m r1), (array m r2), m'. auto 10.
Qed.

Lemma docDown_known_button_witness :
  exists name l1 l2 m',
    nameOf (VNum 2) = Some name
    /\ listeners (Mouse None) (name ++ "down") = Some l1
    /\ listeners (Mouse None) "anydown" = Some l2
    /\ docDown quiet (click 2) (Mouse None) = (Return tt, m')
    /\ buttons m' = {[ 2%Z ]} ∪ buttons (Mouse None)
    /\ calls m' = calls (Mouse None) ++ map (fun f => (f, PEvent (click 2))) (l1 ++ l2).
Proof.
  apply (docDown_known_button quiet (click 2) (Mouse None)).
  - apply wf_Mouse.
  - reflexivity.
  - simpl. lia.
Defined.

(** X10. Likewise for a button-up notification: on an instance that
    satisfies the invariant, with listeners that only observe and a
    code of 0..4, [docUp] removes the code from [buttons], calls the
    listeners of the button's own event ([leftup], ...) and then those
    of [anyup], each once with the raw notification, and returns. *)
Theorem docUp_known_button prog e m :
  wf m -> (forall f q, prog f q = []) -> (0 <= button e <= 4)%Z ->
  exists name l1 l2 m',
    nameOf (VNum (button e)) = Some name
    /\ listeners m (name ++ "up") = Some l1
    /\ listeners m "anyup" = Some l2
    /\ docUp prog e m = (Return tt, m')
    /\ buttons m' = buttons m ∖ {[ button e ]}
    /\ calls m' = calls m ++ map (fun f => (f, PEvent e)) (l1 ++ l2).
Proof.
  intros Hwf Hprog Hc. destruct (known_button_names _ Hc) as (name & Hname & _ & Hu).
  destruct (fixed_listeners m _ Hwf Hu) as (r1 & _ & Hl1).
  destruct (fixed_listeners m "anyup" Hwf eq_refl) as (r2 & _ & Hl2).
  destruct (docUp_named_button prog e m name _ _ Hprog Hname Hl1 Hl2)
    as (m' & H1 & H2 & H3).
  exists name, (array m r1), (array m r2), m'. auto 10.
Qed.

Lemma docUp_known_button_witness :
  exists name l1 l2 m',
    nameOf (VNum 0) = Some name
    /\ listeners (Mouse None) (name ++ "up") = Some l1
    /\ listeners (Mouse None) "anyup" = Some l2
    /\ docUp quiet (click 0) (Mouse None) = (Return tt, m')
    /\ buttons m' = buttons (Mouse None) ∖ {[ 0%Z ]}
    /\ calls m' = calls (Mouse None) ++ map (fun f => (f, PEvent (click 0))) (l1 ++ l2).
Proof.
  apply (docUp_known_button quiet (click 0) (Mouse None)).
  - apply wf_Mouse.
  - reflexivity.
  - simpl. lia.
Defined.

(** X11. A listener of the button's own event that throws keeps the
    generic event from being dispatched: if the first listener of
    [{name}down] throws, [docDown] has added the code to [buttons],
    calls that listener alone and throws; no listener of [anydown] is
    called. *)
Theorem docDown_throwing_listener_skips_anydown prog e m name f l rest :
  nameOf (VNum (button e)) = Some name ->
  listeners m (name ++ "down") = Some (f :: l) ->
  prog f (PEvent e) = Raise :: rest ->
  exists m', docDown prog e m = (Throw Raised, m')
             /\ buttons m' = {[ button e ]} ∪ buttons m
             /\ calls m' = calls m ++ [ (f, PEvent e) ].
Proof.
  intros Hname Hl Hf. unfold docDown. rewrite Hname. simpl template.
  destruct (emit_stops_at_first prog (name ++ "down") (PEvent e)
              (set_buttons (fun s => {[ button e ]} ∪ s) m) f l rest Hl Hf)
    as (m' & -> & Hc & Hd).
  simpl. exists m'. split; [done|]. split; [|done].
  apply data_buttons in Hd. by rewrite Hd.
Qed.

Lemma docDown_throwing_listener_skips_anydown_witness :
  let m := snd (on "anydown" 5 (snd (on "leftdown" 7 (Mouse None)))) in
  exists m', docDown grumpy (click 0) m = (Throw Raised, m')
             /\ buttons m' = {[ 0%Z ]} ∪ buttons m
             /\ calls m' = calls m ++ [ (7, PEvent (click 0)) ].
Proof.
  intros m.
  apply (docDown_throwing_listener_skips_anydown grumpy (click 0) m "left" 7 [] []);
    reflexivity.
Defined.

(** ** Capture *)

(** X12. A capture-error notification produces the [lockerror] event
    and nothing else: on an instance that satisfies the invariant, with
    listeners that only observe, [lockError] calls the listeners of
    [lockerror], each once with no payload, in registration order, and
    returns; it calls no other listener and changes no coordinate,
    button, target or listener list. *)
Theorem lockError_dispatches_lockerror prog m :
  wf m -> (forall f q, prog f q = []) ->
  exists l m', listeners m "lockerror" = Some l
               /\ lockError prog m = (Return tt, m')
               /\ calls m' = calls m ++ map (fun f => (f, PValue VUndefined)) l
               /\ events m' = events m /\ heap m' = heap m /\ data m' = data m.
Proof.
  intros Hwf Hprog.
  destruct (fixed_listeners m "lockerror" Hwf eq_refl) as (r & _ & Hl).
  destruct (emit_observers prog Hprog "lockerror" (PValue VUndefined) m _ Hl)
    as (m' & He & Hc & Hev & Hh & _ & Hd).
  exists (array m r), m'. auto 10.
Qed.

Lemma lockError_dispatches_lockerror_witness :
  exists l m', listeners (subscribe_all "lockerror" [6; 4] (Mouse None)) "lockerror" = Some l
               /\ lockError quiet (subscribe_all "lockerror" [6; 4] (Mouse None))
                  = (Return tt, m')
               /\ calls m' = [] ++ map (fun f => (f, PValue VUndefined)) l
               /\ events m' = events (subscribe_all "lockerror" [6; 4] (Mouse None))
               /\ heap m' = heap (subscribe_all "lockerror" [6; 4] (Mouse None))
               /\ data m' = data (subscribe_all "lockerror" [6; 4] (Mouse None)).
Proof.
  apply (lockError_dispatches_lockerror quiet
           (subscribe_all "lockerror" [6; 4] (Mouse None))).
  - change (wf (snd (on "lockerror" 4 (snd (on "lockerror" 6 (Mouse None)))))).
    auto with wf.
  - reflexivity.
Defined.

(** X13. An instance constructed without a target takes every
    capture-state change for a capture: its target is [undefined], and
    so is a vendor accessor the engine does not have, so the comparison
    of the two succeeds.  With no target, one accessor [undefined] and
    listeners that only observe, [lockChange] calls the [lockchange]
    listeners with [true] and then the [lock] listeners, whatever the
    document reports as captured; the [unlock] listeners are not
    called. *)
Theorem lockChange_without_target_reports_lock prog d m lc ll :
  target m = None ->
  pointerLockElement d = VUndefined \/ mozPointerLockElement d = VUndefined
    \/ webkitPointerLockElement d = VUndefined ->
  (forall f q, prog f q = []) ->
  listeners m "lockchange" = Some lc ->
  listeners m "lock" = Some ll ->
  exists m', lockChange prog d m = (Return tt, m')
             /\ calls m' = calls m
                            ++ map (fun f => (f, PValue (VBool true))) lc
                            ++ map (fun f => (f, PValue VUndefined)) ll.
Proof.
  intros Ht Hd Hprog Hlc Hll. unfold lockChange.
  assert (lock_state d m = true) as ->.
  { unfold lock_state, target_value. rewrite Ht. unfold strict_eq.
    destruct Hd as [->|[->| ->]]; rewrite ?bool_decide_eq_true_2 by done;
      by rewrite ?orb_true_r. }
  cbv zeta.
  destruct (emit_observers prog Hprog "lockchange" (PValue (VBool true)) m lc Hlc)
    as (m1 & -> & Hc1 & He1 & Hh1 & _). simpl.
  assert (listeners m1 "lock" = Some ll) as Hll1
    by (unfold listeners; by rewrite He1, Hh1).
  destruct (emit_observers prog Hprog "lock" (PValue VUndefined) m1 ll Hll1)
    as (m2 & -> & Hc2 & _).
  exists m2. split; [done|]. by rewrite Hc2, Hc1, <- app_assoc.
Qed.

Lemma lockChange_without_target_reports_lock_witness :
  exists m', lockChange quiet nothing_captured targetless_listeners = (Return tt, m')
             /\ calls m' = [ (1, PValue (VBool true)); (2, PValue VUndefined) ].
Proof.
  destruct (lockChange_without_target_reports_lock quiet nothing_captured
              targetless_listeners [1] [2]) as (m' & H & Hc).
  - reflexivity.
  - right. left. reflexivity.
  - reflexivity.
  - reflexivity.
  - reflexivity.
  - exists m'. split; [exact H | exact Hc].
Defined.

(** X14. The constructor prefers the standard entry point to the
    vendor ones, Mozilla's to WebKit's: on an instance constructed on a
    target that has at least one request (resp. exit) entry point,
    [lockPointer()] (resp. [unlockPointer()]) returns after one call of
    the platform, that of the first entry point the target has in the
    order standard, [moz], [webkit]; nothing else changes. *)
Theorem lock_calls_first_entry_point t :
  (requestPointerLock t || mozRequestPointerLock t || webkitRequestPointerLock t = true ->
   lock (Mouse (Some t))
   = (Return tt,
      record_platform
        (if requestPointerLock t then "requestPointerLock"
         else if mozRequestPointerLock t then "mozRequestPointerLock"
         else "webkitRequestPointerLock")
        (Mouse (Some t))))
  /\ (exitPointerLock t || mozExitPointerLock t || webkitExitPointerLock t = true ->
      unlock (Mouse (Some t))
      = (Return tt,
         record_platform
           (if exitPointerLock t then "exitPointerLock"
            else if mozExitPointerLock t then "mozExitPointerLock"
            else "webkitExitPointerLock")
           (Mouse (Some t)))).
Proof.
  split; intros H.
  - unfold lock. simpl. unfold first_available. simpl.
    destruct (requestPointerLock t); [done|].
    destruct (mozRequestPointerLock t); [done|].
    destruct (webkitRequestPointerLock t); [done | discriminate H].
  - unfold unlock. simpl. unfold first_available. simpl.
    destruct (exitPointerLock t); [done|].
    destruct (mozExitPointerLock t); [done|].
    destruct (webkitExitPointerLock t); [done | discriminate H].
Qed.

Lemma lock_calls_first_entry_point_witness :
  lock (Mouse (Some dom_element))
  = (Return tt, record_platform "requestPointerLock" (Mouse (Some dom_element))).
Proof.
  apply (lock_calls_first_entry_point dom_element). reflexivity.
Defined.

(** ** What no operation does *)

Lemma docDown_data prog e m :
  data (snd (docDown prog e m)) = data (set_buttons (fun s => {[ button e ]} ∪ s) m).
Proof. unfold docDown. by rewrite and_then_emit_data, emit_data. Qed.

Lemma docUp_data prog e m :
  data (snd (docUp prog e m)) = data (set_buttons (fun s => s ∖ {[ button e ]}) m).
Proof. unfold docUp. by rewrite and_then_emit_data, emit_data. Qed.

Lemma lockError_data prog m : data (snd (lockError prog m)) = data m.
Proof. unfold lockError. apply emit_data. Qed.

Lemma perform_target prog op m : target (perform prog op m) = target m.
Proof.
  assert (forall m1 m2, data m1 = data m2 -> target m1 = target m2) as Hdata
    by (unfold data; congruence).
  destruct op as [e cb|e cb| | |b|[e|e]|w e|w e|d|]; unfold perform, notify.
  - apply Hdata, on_data.
  - apply Hdata, off_data.
  - apply Hdata, lock_data.
  - apply Hdata, unlock_data.
  - apply Hdata, pressed_data.
  - rewrite (Hdata _ _ (docDown_data prog e m)). done.
  - rewrite (Hdata _ _ (docUp_data prog e m)). done.
  - unfold docMove. rewrite (Hdata _ _ (emit_data _ _ _ _)). done.
  - unfold targetMove. destruct (target m) as [t|] eqn:Ht; [|by rewrite <- Ht].
    unfold docMove. rewrite (Hdata _ _ (emit_data _ _ _ _)). by rewrite <- Ht.
  - apply Hdata, lockChange_data.
  - apply Hdata, lockError_data.
Qed.

(** X15. The target is bound once, at construction: after any sequence
    of calls and notifications, whatever the listeners call or throw,
    the target of the instance is the one the constructor was given,
    with the two aliases the constructor wrote (or none, if none was
    given).  No operation rebinds it. *)
Theorem target_is_bound_once prog ops t :
  target (perform_all prog ops (Mouse t)) = alias_entry_points <$> t.
Proof.
  unfold perform_all. induction ops as [|op ops IH] using rev_ind; [done|].
  rewrite fold_left_app. simpl. by rewrite perform_target.
Qed.

(** X16. Buttons and coordinates are each written by their own
    notifications only: whatever the listeners call or throw, the set
    of held buttons after an operation is the set before it, but for a
    button-down notification, which adds its code, and a button-up
    notification, which removes it; and the twelve coordinates are as
    before after every operation that is not a movement
    notification. *)
Theorem buttons_and_coordinates_frame prog op m :
  buttons (perform prog op m)
  = match op with
    | Host_button (Mousedown e) => {[ button e ]} ∪ buttons m
    | Host_button (Mouseup e) => buttons m ∖ {[ button e ]}
    | _ => buttons m
    end
  /\ (if is_movement op then True else pos (perform prog op m) = pos m).
Proof.
  destruct op as [e cb|e cb| | |b|[e|e]|w e|w e|d|]; unfold perform, notify; simpl is_movement;
    (split; [|try exact I]).
  all: try (apply data_buttons; first [apply on_data | apply off_data | apply lock_data
                                      | apply unlock_data | apply pressed_data
                                      | apply lockChange_data | apply lockError_data]).
  all: try (apply data_pos; first [apply on_data | apply off_data | apply lock_data
                                  | apply unlock_data | apply pressed_data
                                  | apply lockChange_data | apply lockError_data]).
  - apply docDown_buttons.
  - by rewrite (data_pos _ _ (docDown_data prog e m)).
  - apply docUp_buttons.
  - by rewrite (data_pos _ _ (docUp_data prog e m)).
  - unfold docMove. by rewrite (data_buttons _ _ (emit_data _ _ _ _)).
  - unfold targetMove. destruct (target m); [|done].
    unfold docMove. by rewrite (data_buttons _ _ (emit_data _ _ _ _)).
Qed.

(** ** The invariant along the life of an instance *)

Lemma perform_all_reachable prog ops t : reachable prog (perform_all prog ops (Mouse t)).
Proof.
  unfold perform_all. induction ops as [|op ops IH] using rev_ind; [constructor|].
  rewrite fold_left_app. simpl. by constructor.
Qed.

(** X17. The fixed event names stay subscribable for the life of the
    instance: after any sequence of calls and notifications, whatever
    the listeners call or throw (unsubscribing ["all"], names that are
    no events, handlers that throw half way), every one of the
    seventeen fixed names still has a listener list, no two names share
    one, and subscribing to the name returns [true] and appends to
    it. *)
Theorem fixed_names_stay_subscribable prog ops t k cb :
  mem_string k event_names = true ->
  let m := perform_all prog ops (Mouse t) in
  exists l m', listeners m k = Some l
               /\ on k cb m = (Return true, m')
               /\ listeners m' k = Some (l ++ [cb])
               /\ (forall k', k' <> k -> listeners m' k' = listeners m k').
Proof.
  intros Hk m.
  assert (wf m) as Hwf by apply (reachable_wf prog), perform_all_reachable.
  destruct (fixed_listeners m k Hwf Hk) as (r & Hr & Hl).
  destruct (on_own m k _ cb Hwf Hl) as (m' & Hon & Hl' & Hothers & _).
  exists (array m r), m'. auto.
Qed.

Lemma fixed_names_stay_subscribable_witness :
  let m := perform_all grumpy
             [ Call_on "move" 7; Call_off "move" (VStr "all"); Call_on "toString" 1;
               Host_button (Mousedown (click 9)); Call_off "__proto__" (VStr "all") ]
             (Mouse None) in
  exists l m', listeners m "move" = Some l
               /\ on "move" 3 m = (Return true, m')
               /\ listeners m' "move" = Some (l ++ [3])
               /\ (forall k', k' <> "move" -> listeners m' k' = listeners m k').
Proof.
  apply (fixed_names_stay_subscribable grumpy _ None "move" 3). reflexivity.
Defined.

(** ** Queries *)

Lemma buttonCodes_get_name k c : In (k, c) buttonCodes -> buttonCodes_get k = VNum c.
Proof.
  simpl. intros [H|[H|[H|[H|[H|[]]]]]]; injection H as <- <-; reflexivity.
Qed.

Lemma nameOf_code k c : In (k, c) buttonCodes -> nameOf (VNum c) = Some k.
Proof.
  simpl. intros [H|[H|[H|[H|[H|[]]]]]]; injection H as <- <-; reflexivity.
Qed.

(** X18. A query by name is the query by the name's code, in any
    letter case, and reads what the notifications wrote: for a string
    that spells, in any letter case, the button name of code [c],
    [isPressed] returns whether [c] is in [buttons] and writes no
    diagnostic; after a sequence of button notifications replayed on a
    new instance that is whether the most recent notification about [c]
    is a down. *)
Theorem pressed_by_name prog t ns s c :
  In (toLowerCase s, c) buttonCodes ->
  (forall m, pressed (VStr s) m = (bool_decide (c ∈ buttons m), m)
             /\ pressed (VStr s) m = pressed (VNum c) m)
  /\ fst (pressed (VStr s) (replay prog ns (Mouse t))) = held ns c.
Proof.
  intros Hs.
  assert (forall m, pressed (VStr s) m = (bool_decide (c ∈ buttons m), m)) as Hp.
  { intros m. unfold pressed. simpl. by rewrite (buttonCodes_get_name _ _ Hs). }
  split; [intros m; split; [apply Hp | by rewrite Hp]|].
  rewrite Hp. simpl.
  pose proof (replay_buttons_from prog ns (Mouse t) c) as H. unfold held.
  destruct (find _ (rev ns)) as [[e|e]|].
  - apply bool_decide_eq_true_2. by apply H.
  - apply bool_decide_eq_false_2. intros Hc. by apply H in Hc.
  - apply bool_decide_eq_false_2. intros Hc. apply H in Hc.
    by apply not_elem_of_empty in Hc.
Qed.

Lemma pressed_by_name_witness :
  fst (pressed (VStr "Right")
         (replay quiet [Mousedown (click 2); Mousedown (click 0); Mouseup (click 0)]
            (Mouse None)))
  = held [Mousedown (click 2); Mousedown (click 0); Mouseup (click 0)] 2.
Proof.
  apply (pressed_by_name quiet None
           [Mousedown (click 2); Mousedown (click 0); Mouseup (click 0)] "Right" 2).
  simpl. tauto.
Defined.

(** X19. [nameOf] answers for the five codes only, and compares
    strictly: it returns a name exactly when its argument is a Number
    that is one of the codes of the table, and then the name of that
    code; for every other value ([undefined], a string such as ["0"], a
    callback, a code outside 0..4) it returns [undefined]. *)
Theorem nameOf_answers_codes_only v n :
  nameOf v = Some n <-> exists c, v = VNum c /\ In (n, c) buttonCodes.
Proof.
  split.
  - unfold nameOf. destruct (find _ buttonCodes) as [[k c]|] eqn:Hfind; [|done].
    simpl. intros [= <-]. apply find_some in Hfind as [Hin Heq]. simpl in Heq.
    apply bool_decide_eq_true in Heq. exists c. by split.
  - intros (c & -> & Hin). by apply nameOf_code.
Qed.

(** X20. What [codeOf] returns for a string of ASCII characters: a
    Number only for a button name (in any letter case), and then a
    code that [nameOf] maps back to that name in lower case;
    [undefined] exactly when the lower-cased string is neither a button
    name nor a name inherited from [Object.prototype] (for
    ["constructor"], say, the result is the inherited function, not
    [undefined]). *)
Theorem codeOf_of_string s :
  ascii_only s = true ->
  (forall c, codeOf (VStr s) = Return (VNum c) ->
             In (toLowerCase s, c) buttonCodes
             /\ nameOf (VNum c) = Some (toLowerCase s))
  /\ (codeOf (VStr s) = Return VUndefined <->
      mem_string (toLowerCase s) (map fst buttonCodes) = false
      /\ mem_string (toLowerCase s) object_prototype_keys = false).
Proof.
  intros _. unfold codeOf, buttonCodes_get.
  destruct (find _ buttonCodes) as [[k c]|] eqn:Hfind.
  - apply find_some in Hfind as [Hin Heq]. simpl in Heq. apply String.eqb_eq in Heq.
    subst k. split.
    + intros c' [= <-]. split; [done | by apply nameOf_code].
    + split; [done|]. intros [Hn _]. exfalso.
      apply not_true_iff_false in Hn. apply Hn, mem_string_spec.
      apply list_elem_of_fmap. exists (toLowerCase s, c). split; [done|].
      by apply list_elem_of_In.
  - assert (mem_string (toLowerCase s) (map fst buttonCodes) = false) as Hn.
    { apply not_true_iff_false. intros H. apply mem_string_spec in H.
      apply list_elem_of_fmap in H as ([k c] & Hk & Hin). simpl in Hk. subst k.
      apply list_elem_of_In in Hin.
      apply (find_none _ _ Hfind) in Hin. simpl in Hin.
      by rewrite String.eqb_refl in Hin. }
    destruct (mem_string (toLowerCase s) object_prototype_keys) eqn:Hobj.
    + unfold object_prototype_get. split.
      * intros c H. by destruct (String.eqb _ "__proto__").
      * split; [by destruct (String.eqb _ "__proto__") | by intros [_ ?]].
    + split; [done | split; done].
Qed.

Lemma codeOf_of_string_witness :
  (In (toLowerCase "BacK", 3%Z) buttonCodes
   /\ nameOf (VNum 3) = Some (toLowerCase "BacK"))
  /\ codeOf (VStr "wheel") = Return VUndefined.
Proof.
  split.
  - destruct (codeOf_of_string "BacK" eq_refl) as [H _]. apply (H 3%Z). reflexivity.
  - destruct (codeOf_of_string "wheel" eq_refl) as [_ H]. apply H. split; reflexivity.
Defined.

(** ** Movement *)

Lemma zero_over_positive (w : float) :
  (0 <? w)%float = true -> ((0 / w - 0.5) * 2 = -1)%float.
Proof.
  intros Hw. apply Prim2SF_inj.
  rewrite mul_spec, sub_spec, div_spec.
  rewrite ltb_spec in Hw.
  change (Prim2SF 0) with (S754_zero false) in *.
  destruct (Prim2SF w) as [s|s| |s mw ew]; try discriminate Hw.
  - destruct s; [discriminate Hw|]. vm_compute. reflexivity.
  - destruct s; [discriminate Hw|]. vm_compute. reflexivity.
Qed.

(** X21. Positions and movements are normalized by the same formula,
    so that zero maps to -1: on a screen of positive width and height,
    whatever the listeners call or throw, a movement notification
    stores [docX = -1] when [pageX] is 0 and, likewise, [docDX = -1]
    when [movementX] is 0 (a notification that reports no horizontal
    movement stores the normalized movement -1, not 0); the same holds
    of [docY] and [docDY] with the height. *)
Theorem docMove_zero_is_minus_one prog w e m :
  (0 <? innerWidth w)%float = true ->
  (0 <? innerHeight w)%float = true ->
  let c := pos (snd (docMove prog w e m)) in
  (pageX e = 0%float -> docX c = (-1)%float)
  /\ (pageY e = 0%float -> docY c = (-1)%float)
  /\ (movementX e = 0%float -> docDX c = (-1)%float)
  /\ (movementY e = 0%float -> docDY c = (-1)%float).
Proof.
  intros Hw Hh c. subst c. unfold docMove. rewrite emit_pos. simpl.
  unfold Screen.width, Screen.height.
  repeat split; intros ->; by apply zero_over_positive.
Qed.

Lemma docMove_zero_is_minus_one_witness :
  let c := pos (snd (docMove quiet (screen 1000 500) (pointer_at 0 250) (Mouse None))) in
  docX c = (-1)%float /\ docDX c = (-1)%float /\ docDY c = (-1)%float.
Proof.
  intros c.
  destruct (docMove_zero_is_minus_one quiet (screen 1000 500) (pointer_at 0 250)
              (Mouse None)) as (H1 & _ & H3 & H4); [reflexivity | reflexivity |].
  split; [by apply H1|]. split; [by apply H3 | by apply H4].
Defined.

(** ** A new instance *)

(** X22. What the constructor leaves: exactly the seventeen fixed
    event names have a listener list, each empty, so that a dispatch of
    any of them calls nothing; no button is held, and [isPressed]
    returns [false] for every argument; nothing was written to the
    console and no listener or platform entry was called. *)
Theorem Mouse_initial t :
  (forall k, listeners (Mouse t) k
             = if mem_string k event_names then Some [] else None)
  /\ (forall prog k p, mem_string k event_names = true ->
        emit prog k p (Mouse t) = (Return tt, Mouse t))
  /\ (forall v, fst (pressed v (Mouse t)) = false)
  /\ console (Mouse t) = [] /\ calls (Mouse t) = [] /\ platform (Mouse t) = [].
Proof.
  assert (forall k, listeners (Mouse t) k
                    = if mem_string k event_names then Some [] else None) as Hl.
  { intros k. unfold listeners.
    destruct (events (Mouse t) !! k) as [r|] eqn:Hr.
    - apply Mouse_events_lookup in Hr.
      assert (mem_string k event_names = true) as ->
        by (apply mem_string_spec; by eapply list_elem_of_lookup_2).
      apply lookup_lt_Some in Hr.
      change (replicate (length event_names) ([] : list callback) !! r = Some []).
      by apply lookup_replicate_2.
    - destruct (mem_string k event_names) eqn:Hk; [|done].
      destruct (wf_names _ (wf_Mouse t) k Hk) as [r' Hr']. congruence. }
  split; [exact Hl|]. split; [|split; [|done]].
  - intros prog k p Hk. specialize (Hl k). rewrite Hk in Hl.
    destruct (listeners_events _ _ _ Hl) as (r & Hr & Harr).
    unfold emit. by rewrite (own_events_get _ k r Hr), Harr.
  - intros v. unfold pressed. simpl.
    destruct (_ || _); unfold buttons_has; simpl;
      destruct (resolve_button v); try done;
      apply bool_decide_eq_false_2, not_elem_of_empty.
Qed.

Lemma Mouse_initial_witness :
  listeners (Mouse None) "lockchange" = Some []
  /\ listeners (Mouse None) "mousedown" = None
  /\ emit grumpy "nextup" (PValue VNull) (Mouse None) = (Return tt, Mouse None).
Proof.
  destruct (Mouse_initial None) as (Hl & He & _).
  split; [exact (Hl "lockchange")|]. split; [exact (Hl "mousedown")|].
  apply (He grumpy "nextup" (PValue VNull)). reflexivity.
Defined.

(** ** Movement over the target *)

(** X23. A movement over the target is handled as a movement over the
    document, and more: on an instance with a target, whatever the
    listeners call or throw, [targetMove] stores the eight document
    coordinates that [docMove] stores for the same notification and
    screen; with listeners that only observe it calls the [move]
    listeners, each once with the raw notification, and returns; and,
    the target having a positive width, a notification with
    [clientX = 0] stores [targetX = -1]. *)
Theorem targetMove_is_docMove_and_more prog w e m t l :
  target m = Some t ->
  listeners m "move" = Some l ->
  let a := snd (targetMove prog w e m) in
  let b := snd (docMove prog w e m) in
  (docX (pos a), docY (pos a), docPX (pos a), docPY (pos a))
  = (docX (pos b), docY (pos b), docPX (pos b), docPY (pos b))
  /\ (docDX (pos a), docDY (pos a), docDPX (pos a), docDPY (pos a))
     = (docDX (pos b), docDY (pos b), docDPX (pos b), docDPY (pos b))
  /\ ((forall f q, prog f q = []) ->
      fst (targetMove prog w e m) = Return tt
      /\ calls a = calls m ++ map (fun f => (f, PEvent e)) l)
  /\ ((0 <? clientWidth t)%float = true -> clientX e = 0%float ->
      targetX (pos a) = (-1)%float).
Proof.
  intros Ht Hl a b. subst a b. unfold targetMove, docMove. rewrite Ht. cbv zeta.
  rewrite !emit_pos. split; [done|]. split; [done|]. split.
  - intros Hprog. set (m1 := set_pos _ (set_pos _ m)).
    destruct (emit_observers prog Hprog "move" (PEvent e) m1 l Hl)
      as (m' & -> & Hc & _).
    by split.
  - intros Hw Hx. simpl. rewrite Hx. by apply zero_over_positive.
Qed.

Lemma targetMove_is_docMove_and_more_witness :
  let m := subscribe_all "move" [4] (Mouse (Some canvas)) in
  let a := snd (targetMove quiet (screen 1000 500) (pointer_at 0 50) m) in
  calls a = [ (4, PEvent (pointer_at 0 50)) ]
  /\ targetX (pos a) = (-1)%float
  /\ docX (pos a) = (-1)%float.
Proof.
  intros m a.
  destruct (targetMove_is_docMove_and_more quiet (screen 1000 500) (pointer_at 0 50)
              m (alias_entry_points canvas) [4] eq_refl eq_refl)
    as (_ & _ & Hcalls & Htx).
  fold a in Hcalls, Htx.
  split; [by apply Hcalls|]. split; [by apply Htx|].
  vm_compute. reflexivity.
Defined.
